(** * LiveCritic: the realtime audio session bridge

    A shallow embedding of [components/LiveCritic.tsx] (the React component
    that owns the duplex audio session) together with the part of the browser
    and of the AI gateway that the component talks to.

    - JavaScript numbers that hold audio-clock times are modelled as exact
      rationals ([Q]): every time the component handles is a frame count
      divided by a sample rate, and the component only applies [Math.max],
      [+] and [*] to them.
    - Browser objects (audio contexts, nodes, media streams, promises, timers)
      are handles into a store; every method the component invokes on them is
      appended to a call log, which is the resource accounting the properties
      below are stated on.
    - An [await] is a suspension point: the code before it and the code after
      it are two separate transitions, and any other event may run between
      them. *)

From Stdlib Require Import ZArith QArith Qminmax Qabs Lia List String Ascii.
From stdpp Require Import base option gmap list.

Import ListNotations.

(** ** services/audioUtils: PCM transport encoding

    [createPcmBlob], [decode] and [decodeAudioData] are imported by the
    component from [../services/audioUtils], whose source is not part of the
    files at hand; the definitions of this module follow the contract of the
    PCM encoder and decoder. Bytes are integers in [0, 256). Samples are
    rationals: the scaling by 32768 and the division by 32768 are exact on
    binary floating-point numbers of magnitude at most 1, so nothing is lost
    by reading a sample as the rational it denotes. *)

Module AudioUtils.

Local Open Scope Z_scope.

(** The payload that travels on the duplex channel: base64 text and a mime
    type (the [Blob] of the gateway SDK). *)
Record Blob : Set := mkBlob { data : string; mimeType : string }.

(** Modelled from the spec: the alphabet of the base64 transport encoding
    (RFC 4648), as [btoa] and [atob] have it. *)
Definition b64_alphabet : list ascii :=
  list_ascii_of_string
    "ABCDEFGHIJKLMNOPQRSTUVWXYZabcdefghijklmnopqrstuvwxyz0123456789+/".

Definition b64_pad : ascii := "="%char.

(** The character of a sextet. *)
Definition b64_char (n : Z) : ascii := nth (Z.to_nat n) b64_alphabet b64_pad.

Fixpoint index_from (c : ascii) (l : list ascii) (i : Z) : option Z :=
  match l with
  | [] => None
  | a :: l' => if Ascii.eqb a c then Some i else index_from c l' (i + 1)
  end.

(** The sextet of a character; [None] for a character outside the alphabet. *)
Definition b64_index (c : ascii) : option Z := index_from c b64_alphabet 0.

(** Modelled from the spec: base64 of a byte sequence (RFC 4648, with
    padding), three bytes to four characters. *)
Fixpoint b64_encode (bs : list Z) : list ascii :=
  match bs with
  | [] => []
  | [a] =>
      [b64_char (a / 4); b64_char (a mod 4 * 16); b64_pad; b64_pad]
  | [a; b] =>
      [b64_char (a / 4); b64_char (a mod 4 * 16 + b / 16);
       b64_char (b mod 16 * 4); b64_pad]
  | a :: b :: c :: rest =>
      b64_char (a / 4) :: b64_char (a mod 4 * 16 + b / 16)
      :: b64_char (b mod 16 * 4 + c / 64) :: b64_char (c mod 64)
      :: b64_encode rest
  end.

(** Modelled from the spec: the inverse of [b64_encode]; [None] when the
    text is truncated (its length is not a multiple of four) or holds a
    character outside the alphabet. *)
Fixpoint b64_decode (cs : list ascii) : option (list Z) :=
  match cs with
  | [] => Some []
  | c1 :: c2 :: c3 :: c4 :: rest =>
      match b64_index c1, b64_index c2 with
      | Some i1, Some i2 =>
          if Ascii.eqb c4 b64_pad then
            match rest with
            | [] =>
                if Ascii.eqb c3 b64_pad then Some [i1 * 4 + i2 / 16]
                else
                  match b64_index c3 with
                  | Some i3 => Some [i1 * 4 + i2 / 16; i2 mod 16 * 16 + i3 / 4]
                  | None => None
                  end
            | _ :: _ => None
            end
          else
            match b64_index c3, b64_index c4, b64_decode rest with
            | Some i3, Some i4, Some bytes =>
                Some (i1 * 4 + i2 / 16 :: i2 mod 16 * 16 + i3 / 4
                      :: i3 mod 4 * 64 + i4 :: bytes)
            | _, _, _ => None
            end
      | _, _ => None
      end
  | _ => None
  end.

(** Modelled from the spec: [encode] of services/audioUtils, the base64 text
    of a byte buffer ("base64-encoded for transport"). *)
Definition encode (bytes : list Z) : string :=
  string_of_list_ascii (b64_encode bytes).

(** Modelled from the spec: [decode] of services/audioUtils, the bytes of a
    base64 payload; it fails on a truncated or malformed payload. *)
Definition decode (base64 : string) : option (list Z) :=
  b64_decode (list_ascii_of_string base64).

(** Modelled from the spec: a sample in [-1, 1] as a signed 16-bit integer
    ("16-bit PCM", "quantization tolerance 1/32768"). The sample is scaled by
    32768; the contract fixes neither the rounding nor the treatment of 1.0,
    whose scaled value 32768 is no 16-bit integer: here the scaled value is
    truncated toward zero and saturated to the 16-bit range, the only choice
    at 1.0 that stays within the tolerance. *)
Definition quantize (x : Q) : Z :=
  Z.max (-32768) (Z.min 32767 (Z.quot (Qnum x * 32768) (Z.pos (Qden x)))).

(** Modelled from the spec: the two bytes of a signed 16-bit integer in
    two's complement, low byte first ("little-endian"). *)
Definition int16_le (v : Z) : list Z :=
  let u := v mod 65536 in [u mod 256; u / 256].

(** Modelled from the spec: the signed 16-bit integer of two bytes, low
    byte first. *)
Definition le_int16 (lo hi : Z) : Z :=
  let u := lo + 256 * hi in if 32768 <=? u then u - 65536 else u.

(** Modelled from the spec: the little-endian 16-bit PCM bytes of a sample
    sequence, two bytes per sample in the order of the samples. *)
Definition pcm_bytes (samples : list Q) : list Z :=
  flat_map (fun x => int16_le (quantize x)) samples.

Definition PCM_MIME : string := "audio/pcm;rate=16000".

(** Modelled from the spec: [createPcmBlob] of services/audioUtils. "Input is
    an ordered sequence of floating-point samples in range [-1.0, 1.0];
    output is a little-endian 16-bit PCM byte buffer of the same sample
    count, base64-encoded for transport, tagged with mime type
    audio/pcm;rate=16000." *)
Definition createPcmBlob (samples : list Q) : Blob :=
  mkBlob (encode (pcm_bytes samples)) PCM_MIME.

(** Modelled from the spec: the channel data that [decodeAudioData] of
    services/audioUtils reads from little-endian 16-bit PCM bytes, each
    sample divided by 32768; it fails on a truncated buffer (an odd number of
    bytes). The component only reads the duration of the buffer, see
    [LiveCritic.AudioBuffer]. *)
Fixpoint decodeAudioData (bytes : list Z) : option (list Q) :=
  match bytes with
  | [] => Some []
  | lo :: hi :: rest =>
      match decodeAudioData rest with
      | Some samples => Some ((le_int16 lo hi # 32768) :: samples)
      | None => None
      end
  | [_] => None
  end.

(** Encoding followed by decoding. *)
Definition roundtrip (samples : list Q) : option (list Q) :=
  match decode (data (createPcmBlob samples)) with
  | Some bytes => decodeAudioData bytes
  | None => None
  end.

(** The checks of the alphabet: a sextet's character maps back to the sextet
    and is not the padding character. *)
Definition sextet_ok (n : Z) : bool :=
  match b64_index (b64_char n) with
  | Some m => (m =? n) && negb (Ascii.eqb (b64_char n) b64_pad)
  | None => false
  end.

Definition is_byte (b : Z) : Prop := 0 <= b < 256.

Definition is_int16 (v : Z) : Prop := -32768 <= v < 32768.

End AudioUtils.

(** ** components/LiveCritic.tsx *)

Module LiveCritic.

Import AudioUtils.

Definition Handle : Set := nat.

(** [useState<'idle' | 'connecting' | 'live' | 'error'>] *)
Inductive Status : Set := idle | connecting | live | error.

(** The Web Audio [AudioBuffer] as far as the component reads it:
    [duration] is [length / sampleRate]. *)
Record AudioBuffer : Set := mkBuffer { buf_length : N; buf_sampleRate : positive }.

Definition duration (b : AudioBuffer) : Q := Z.of_N (buf_length b) # buf_sampleRate b.

(** An [AudioContext]: its clock is the number of rendered frames. *)
Record AudioContext : Set := mkContext { sampleRate : positive; currentFrame : N }.

Definition currentTime (c : AudioContext) : Q := Z.of_N (currentFrame c) # sampleRate c.

(** The promise returned by [connectLiveSession]. A pending promise holds the
    reactions registered with [then], oldest first; each reaction of the
    component is the closure [session => session.sendRealtimeInput({media})],
    represented by the captured [media]. *)
Inductive Promise : Set :=
| Pending (reactions : list Blob)
| Fulfilled (session : Handle)
| Rejected.

Inductive Target : Set :=
| Node (node : Handle)
| Destination (ctx : Handle).

(** The calls the component can make on the browser and on the gateway, and
    the one answer of the browser that hands out a device
    ([MediaStreamGranted], the resolution of [getUserMedia]). [TrackStop] and
    [SessionClose] are part of that interface although the component never
    issues them. *)
Inductive Call : Set :=
| NewAudioContext (ctx : Handle) (rate : positive)
| GetUserMedia (rate channelCount : Z) (echoCancellation : bool)
| MediaStreamGranted (stream : Handle)
| CreateMediaStreamSource (ctx stream node : Handle)
| CreateScriptProcessor (ctx node : Handle) (bufferSize inputs outputs : Z)
| ConnectLiveSession (promise : Handle)
| SetOnAudioProcess (node : Handle)
| NodeConnect (node : Handle) (to : Target)
| NodeDisconnect (node : Handle)
| ContextClose (ctx : Handle)
| TrackStop (stream : Handle)
| SessionClose (session : Handle)
| CreateBufferSource (ctx node : Handle)
| BufferSourceStart (node : Handle) (buffer : AudioBuffer) (when : Q)
| SendRealtimeInput (session : Handle) (media : Blob)
| SetTimeout (timer : Handle) (ms : Q)
| ConsoleError (msg : string).

(** The component: its React state and its refs. *)
Record Component : Type := mkComponent {
  active : bool;
  status : Status;
  volume : Q;
  isSpeaking : bool;
  audioContextRef : option Handle;
  sessionPromiseRef : option Handle;
  inputSourceRef : option Handle;
  processorRef : option Handle;
  nextStartTimeRef : Q
}.

(** The browser side: the object store, the suspended continuations of the
    component, and the call log (oldest call first).
    - [fresh]: the next unused handle;
    - [contexts]: the audio contexts created, with their clocks;
    - [promises]: the session promises handed out by the gateway;
    - [mediaRequests]: how many calls of [startSession] are suspended at
      [await getUserMedia];
    - [decodes]: the handlers of [onMessage] suspended at
      [await decodeAudioData], each with the [ctx] and the blob it captured;
    - [timers]: the pending [setTimeout] callbacks. *)
Record Browser : Type := mkBrowser {
  fresh : Handle;
  contexts : gmap Handle AudioContext;
  promises : gmap Handle Promise;
  mediaRequests : nat;
  decodes : gmap Handle (Handle * Blob);
  timers : gset Handle;
  calls : list Call
}.

Record World : Type := mkWorld { comp : Component; env : Browser }.

(** *** Field updates *)

Definition setActive (b : bool) (c : Component) : Component :=
  mkComponent b (status c) (volume c) (isSpeaking c) (audioContextRef c)
    (sessionPromiseRef c) (inputSourceRef c) (processorRef c) (nextStartTimeRef c).

Definition setStatus (s : Status) (c : Component) : Component :=
  mkComponent (active c) s (volume c) (isSpeaking c) (audioContextRef c)
    (sessionPromiseRef c) (inputSourceRef c) (processorRef c) (nextStartTimeRef c).

Definition setVolume (v : Q) (c : Component) : Component :=
  mkComponent (active c) (status c) v (isSpeaking c) (audioContextRef c)
    (sessionPromiseRef c) (inputSourceRef c) (processorRef c) (nextStartTimeRef c).

Definition setIsSpeaking (b : bool) (c : Component) : Component :=
  mkComponent (active c) (status c) (volume c) b (audioContextRef c)
    (sessionPromiseRef c) (inputSourceRef c) (processorRef c) (nextStartTimeRef c).

Definition set_audioContextRef (r : option Handle) (c : Component) : Component :=
  mkComponent (active c) (status c) (volume c) (isSpeaking c) r
    (sessionPromiseRef c) (inputSourceRef c) (processorRef c) (nextStartTimeRef c).

Definition set_sessionPromiseRef (r : option Handle) (c : Component) : Component :=
  mkComponent (active c) (status c) (volume c) (isSpeaking c) (audioContextRef c)
    r (inputSourceRef c) (processorRef c) (nextStartTimeRef c).

Definition set_inputSourceRef (r : option Handle) (c : Component) : Component :=
  mkComponent (active c) (status c) (volume c) (isSpeaking c) (audioContextRef c)
    (sessionPromiseRef c) r (processorRef c) (nextStartTimeRef c).

Definition set_processorRef (r : option Handle) (c : Component) : Component :=
  mkComponent (active c) (status c) (volume c) (isSpeaking c) (audioContextRef c)
    (sessionPromiseRef c) (inputSourceRef c) r (nextStartTimeRef c).

Definition set_nextStartTimeRef (t : Q) (c : Component) : Component :=
  mkComponent (active c) (status c) (volume c) (isSpeaking c) (audioContextRef c)
    (sessionPromiseRef c) (inputSourceRef c) (processorRef c) t.

Definition set_fresh (h : Handle) (b : Browser) : Browser :=
  mkBrowser h (contexts b) (promises b) (mediaRequests b) (decodes b) (timers b) (calls b).

Definition set_contexts (m : gmap Handle AudioContext) (b : Browser) : Browser :=
  mkBrowser (fresh b) m (promises b) (mediaRequests b) (decodes b) (timers b) (calls b).

Definition set_promises (m : gmap Handle Promise) (b : Browser) : Browser :=
  mkBrowser (fresh b) (contexts b) m (mediaRequests b) (decodes b) (timers b) (calls b).

Definition set_mediaRequests (n : nat) (b : Browser) : Browser :=
  mkBrowser (fresh b) (contexts b) (promises b) n (decodes b) (timers b) (calls b).

Definition set_decodes (m : gmap Handle (Handle * Blob)) (b : Browser) : Browser :=
  mkBrowser (fresh b) (contexts b) (promises b) (mediaRequests b) m (timers b) (calls b).

Definition set_timers (s : gset Handle) (b : Browser) : Browser :=
  mkBrowser (fresh b) (contexts b) (promises b) (mediaRequests b) (decodes b) s (calls b).

Definition set_calls (l : list Call) (b : Browser) : Browser :=
  mkBrowser (fresh b) (contexts b) (promises b) (mediaRequests b) (decodes b) (timers b) l.

(** *** Effects

    A computation runs on the world and either returns a value or throws;
    what it did to the world before it threw stays done, as in JavaScript. *)

Definition Eff (A : Type) : Type := World -> option A * World.

Definition ret {A : Type} (a : A) : Eff A := fun w => (Some a, w).

Definition throw {A : Type} : Eff A := fun w => (None, w).

Definition bind {A B : Type} (m : Eff A) (k : A -> Eff B) : Eff B :=
  fun w => match m w with
           | (Some a, w') => k a w'
           | (None, w') => (None, w')
           end.

Notation "x <- m ;; k" := (bind m (fun x => k))
  (at level 100, m at next level, right associativity).
Notation "m ;;; k" := (bind m (fun _ => k))
  (at level 100, right associativity).

(** [try { body } catch { handler }] *)
Definition try_catch (body handler : Eff unit) : Eff unit :=
  fun w => match body w with
           | (Some _, w') => (Some tt, w')
           | (None, w') => handler w'
           end.

Definition exec (m : Eff unit) (w : World) : World := snd (m w).

Definition update (f : Component -> Component) : Eff unit :=
  fun w => (Some tt, mkWorld (f (comp w)) (env w)).

Definition read {A : Type} (f : Component -> A) : Eff A :=
  fun w => (Some (f (comp w)), w).

Definition browser (f : Browser -> Browser) : Eff unit :=
  fun w => (Some tt, mkWorld (comp w) (f (env w))).

Definition call (c : Call) : Eff unit :=
  browser (fun b => set_calls (calls b ++ [c]) b).

(** Allocation of a new browser object. *)
Definition alloc : Eff Handle :=
  fun w => (Some (fresh (env w)),
            mkWorld (comp w) (set_fresh (S (fresh (env w))) (env w))).

(** [ref.current.method(...)]: a [TypeError] when the ref is null. *)
Definition deref (f : Component -> option Handle) : Eff Handle :=
  fun w => match f (comp w) with
           | Some h => (Some h, w)
           | None => (None, w)
           end.

(** *** Browser and gateway operations *)

(** [new AudioContext({sampleRate})]; [ok] is whether the browser grants it. *)
Definition newAudioContext (rate : positive) (ok : bool) : Eff Handle :=
  if ok then
    ctx <- alloc ;;
    browser (fun b => set_contexts (<[ctx := mkContext rate 0]> (contexts b)) b) ;;;
    call (NewAudioContext ctx rate) ;;;
    ret ctx
  else throw.

(** [ctx.currentTime] *)
Definition readCurrentTime (ctx : Handle) : Eff Q :=
  fun w => (Some (from_option currentTime 0%Q (contexts (env w) !! ctx)), w).

Definition createMediaStreamSource (ctx stream : Handle) (ok : bool) : Eff Handle :=
  if ok then
    node <- alloc ;;
    call (CreateMediaStreamSource ctx stream node) ;;;
    ret node
  else throw.

Definition createScriptProcessor (ctx : Handle) (size ins outs : Z) (ok : bool)
  : Eff Handle :=
  if ok then
    node <- alloc ;;
    call (CreateScriptProcessor ctx node size ins outs) ;;;
    ret node
  else throw.

(** Modelled from the spec: [connectLiveSession] of services/geminiService,
    "connect(onOpen, onMessage, onError, onClose) -> SessionHandle". It hands
    back a pending promise of the session (the component calls [then] on
    it); the four callbacks are the events [EvOpen], [EvMessage], [EvError]
    and [EvClose] below. *)
Definition connectLiveSession (ok : bool) : Eff Handle :=
  if ok then
    p <- alloc ;;
    browser (fun b => set_promises (<[p := Pending []]> (promises b)) b) ;;;
    call (ConnectLiveSession p) ;;;
    ret p
  else throw.

(** [promise.then(session => session.sendRealtimeInput({ media }))]: queued
    while the promise is pending, run at once (as a microtask of the current
    callback) when it is fulfilled, never run when it is rejected. *)
Definition promise_then (p : Handle) (media : Blob) : Eff unit :=
  fun w =>
    match promises (env w) !! p with
    | Some (Pending rs) =>
        browser (fun b => set_promises (<[p := Pending (rs ++ [media])]> (promises b)) b) w
    | Some (Fulfilled s) => call (SendRealtimeInput s media) w
    | Some Rejected | None => (Some tt, w)
    end.

(** *** The component's functions *)

(** [disconnect] (lines 79-96). *)
Definition disconnect : Eff unit :=
  (p <- read processorRef ;;
   match p with
   | Some node => call (NodeDisconnect node) ;;; update (set_processorRef None)
   | None => ret tt
   end) ;;;
  (s <- read inputSourceRef ;;
   match s with
   | Some node => call (NodeDisconnect node) ;;; update (set_inputSourceRef None)
   | None => ret tt
   end) ;;;
  (a <- read audioContextRef ;;
   match a with
   | Some ctx => call (ContextClose ctx) ;;; update (set_audioContextRef None)
   | None => ret tt
   end) ;;;
  update (setActive false) ;;;
  update (setStatus idle) ;;;
  update (setIsSpeaking false) ;;;
  update (setVolume 0).

(** What the browser answers during the set-up of a session. *)
Inductive SetupFault : Set :=
| InputContextFails
| SourceFails
| ProcessorFails
| HandshakeThrows.

Inductive MediaOutcome : Set :=
| Denied
| Granted (fault : option SetupFault).

Definition goes_well (step : SetupFault) (fault : option SetupFault) : bool :=
  match fault, step with
  | Some InputContextFails, InputContextFails
  | Some SourceFails, SourceFails
  | Some ProcessorFails, ProcessorFails
  | Some HandshakeThrows, HandshakeThrows => false
  | _, _ => true
  end.

(** The [catch] of [startSession] (lines 177-180). *)
Definition startSession_catch : Eff unit :=
  call (ConsoleError "Failed to start live session") ;;;
  update (setStatus error).

(** [startSession] up to [await getUserMedia] (lines 98-110). *)
Definition startSession_begin (outputOk : bool) : Eff unit :=
  update (setStatus connecting) ;;;
  try_catch
    (ctx <- newAudioContext 24000 outputOk ;;
     update (set_audioContextRef (Some ctx)) ;;;
     call (GetUserMedia 16000 1 true) ;;;
     browser (fun b => set_mediaRequests (S (mediaRequests b)) b))
    startSession_catch.

(** [startSession] from the settlement of [getUserMedia] on (lines 106-180). *)
Definition startSession_resume (outcome : MediaOutcome) : Eff unit :=
  try_catch
    match outcome with
    | Denied => throw
    | Granted fault =>
        stream <- alloc ;;
        call (MediaStreamGranted stream) ;;;
        inputContext <- newAudioContext 16000 (goes_well InputContextFails fault) ;;
        source <- createMediaStreamSource inputContext stream
                    (goes_well SourceFails fault) ;;
        update (set_inputSourceRef (Some source)) ;;;
        processor <- createScriptProcessor inputContext 4096 1 1
                       (goes_well ProcessorFails fault) ;;
        update (set_processorRef (Some processor)) ;;;
        promise <- connectLiveSession (goes_well HandshakeThrows fault) ;;
        update (set_sessionPromiseRef (Some promise)) ;;;
        p1 <- deref processorRef ;;
        call (SetOnAudioProcess p1) ;;;
        s1 <- deref inputSourceRef ;;
        p2 <- deref processorRef ;;
        call (NodeConnect s1 (Node p2)) ;;;
        p3 <- deref processorRef ;;
        call (NodeConnect p3 (Destination inputContext))
    end
    startSession_catch.

(** The [onOpen] callback (lines 117-120). *)
Definition onOpen : Eff unit :=
  update (setStatus live) ;;;
  update (setActive true).

(** The [onMessage] callback up to [await decodeAudioData] (lines 121-134):
    the liveness guard, the clamp of the cursor to the audio clock, and the
    start of the decode. The continuation keeps [ctx] and the blob. *)
Definition onMessage_begin (audioBlob : Blob) : Eff unit :=
  r <- read audioContextRef ;;
  match r with
  | None => ret tt
  | Some ctx =>
      now <- readCurrentTime ctx ;;
      update (fun c => set_nextStartTimeRef (Qmax (nextStartTimeRef c) now) c) ;;;
      d <- alloc ;;
      browser (fun b => set_decodes (<[d := (ctx, audioBlob)]> (decodes b)) b)
  end.

(** The [onMessage] callback from the settlement of the decode on (lines
    129-152); [result] is the decoded buffer, or [None] when [decode] or
    [decodeAudioData] threw (a synchronous throw is a settlement with no
    event in between). Creating and starting a buffer source does not throw
    on a closed context. *)
Definition onMessage_resume (d : Handle) (result : option AudioBuffer) : Eff unit :=
  fun w =>
    match decodes (env w) !! d with
    | None => (Some tt, w)
    | Some (ctx, _) =>
        (browser (fun b => set_decodes (delete d (decodes b)) b) ;;;
         try_catch
           match result with
           | None => throw
           | Some audioBuffer =>
               source <- alloc ;;
               call (CreateBufferSource ctx source) ;;;
               call (NodeConnect source (Destination ctx)) ;;;
               t <- read nextStartTimeRef ;;
               call (BufferSourceStart source audioBuffer t) ;;;
               update (fun c =>
                 set_nextStartTimeRef (nextStartTimeRef c + duration audioBuffer) c) ;;;
               update (setIsSpeaking true) ;;;
               update (setVolume (8 # 10)) ;;;
               timer <- alloc ;;
               browser (fun b => set_timers ({[timer]} ∪ timers b) b) ;;;
               call (SetTimeout timer (duration audioBuffer * 1000))
           end
           (call (ConsoleError "Error decoding audio"))) w
    end.

(** The callback of [setTimeout] (lines 145-148). *)
Definition onTimeout : Eff unit :=
  update (setVolume 0) ;;;
  update (setIsSpeaking false).

(** The [onError] callback (lines 154-158). *)
Definition onError : Eff unit :=
  call (ConsoleError "live session error") ;;;
  update (setStatus error) ;;;
  disconnect.

(** The [onClose] callback (lines 159-162). *)
Definition onClose : Eff unit :=
  update (setStatus idle) ;;;
  disconnect.

(** [processorRef.current.onaudioprocess] (lines 165-172). *)
Definition onaudioprocess (inputData : list Q) : Eff unit :=
  let pcmBlob := createPcmBlob inputData in
  r <- read sessionPromiseRef ;;
  match r with
  | Some promise => promise_then promise pcmBlob
  | None => ret tt
  end.

(** *** The event loop *)

(** The gateway settles the promise of a session: the queued reactions run
    in the order of their registration. *)
Definition settle (p : Handle) (session : option Handle) : Eff unit :=
  fun w =>
    match promises (env w) !! p with
    | Some (Pending rs) =>
        match session with
        | Some s =>
            browser (fun b =>
              set_calls (calls b ++ map (SendRealtimeInput s) rs)
                (set_promises (<[p := Fulfilled s]> (promises b)) b)) w
        | None =>
            browser (fun b => set_promises (<[p := Rejected]> (promises b)) b) w
        end
    | _ => (Some tt, w)
    end.

(** The audio thread renders [n] more frames of a context. *)
Definition render (ctx : Handle) (n : N) : Eff unit :=
  browser (fun b =>
    set_contexts
      (alter (fun c => mkContext (sampleRate c) (currentFrame c + n)) ctx (contexts b)) b).

(** An audio-process callback only reaches a node whose [onaudioprocess] was
    set. *)
Definition has_handler (node : Handle) (log : list Call) : bool :=
  existsb (fun c => match c with
                    | SetOnAudioProcess n => Nat.eqb n node
                    | _ => false
                    end) log.

(** The gateway only calls back once [connectLiveSession] was called. *)
Definition connected (log : list Call) : bool :=
  existsb (fun c => match c with ConnectLiveSession _ => true | _ => false end) log.

(** What can happen to a mounted component: the user's clicks
    ([EvStartSession], [EvDisconnect]; the latter is also the unmount
    clean-up), the settlements of what the component awaits ([EvUserMedia],
    [EvDecoded]), the gateway ([EvSettle], [EvOpen], [EvMessage], [EvError],
    [EvClose]), the audio thread ([EvAudioProcess], [EvRender]) and timers. *)
Inductive Event : Type :=
| EvStartSession (outputOk : bool)
| EvUserMedia (outcome : MediaOutcome)
| EvSettle (promise : Handle) (session : option Handle)
| EvOpen
| EvMessage (audioBlob : Blob)
| EvDecoded (d : Handle) (result : option AudioBuffer)
| EvTimeout (timer : Handle)
| EvError
| EvClose
| EvDisconnect
| EvAudioProcess (node : Handle) (inputData : list Q)
| EvRender (ctx : Handle) (frames : N).

Definition when (b : bool) (m : Eff unit) : Eff unit := if b then m else ret tt.

Definition handle (e : Event) : Eff unit :=
  match e with
  | EvStartSession ok => startSession_begin ok
  | EvUserMedia outcome =>
      n <- (fun w => (Some (mediaRequests (env w)), w)) ;;
      match n with
      | O => ret tt
      | S n' =>
          browser (set_mediaRequests n') ;;;
          startSession_resume outcome
      end
  | EvSettle p session => settle p session
  | EvOpen => fun w => when (connected (calls (env w))) onOpen w
  | EvMessage audioBlob =>
      fun w => when (connected (calls (env w))) (onMessage_begin audioBlob) w
  | EvDecoded d result => onMessage_resume d result
  | EvTimeout timer =>
      fun w =>
        if decide (timer ∈ timers (env w)) then
          (browser (fun b => set_timers (timers b ∖ {[timer]}) b) ;;; onTimeout) w
        else (Some tt, w)
  | EvError => fun w => when (connected (calls (env w))) onError w
  | EvClose => fun w => when (connected (calls (env w))) onClose w
  | EvDisconnect => disconnect
  | EvAudioProcess node inputData =>
      fun w => when (has_handler node (calls (env w))) (onaudioprocess inputData) w
  | EvRender ctx n => render ctx n
  end.

Definition step (w : World) (e : Event) : World := exec (handle e) w.

Definition run (w : World) (es : list Event) : World := fold_left step es w.

(** The component as mounted. *)
Definition mounted : World :=
  mkWorld
    (mkComponent false idle 0 false None None None None 0)
    (mkBrowser 0 ∅ ∅ 0 ∅ ∅ []).

(** *** Observations on a world *)

(** [ctx.currentTime] as a function of the world. *)
Definition clock (w : World) (ctx : Handle) : Q :=
  from_option currentTime 0%Q (contexts (env w) !! ctx).

Definition cursor (w : World) : Q := nextStartTimeRef (comp w).

(** The playback schedule: start time and duration of every buffer started,
    in the order of the calls to [source.start]. *)
Definition schedule (log : list Call) : list (Q * Q) :=
  flat_map (fun c => match c with
                     | BufferSourceStart _ buffer t => [(t, duration buffer)]
                     | _ => []
                     end) log.


(** The frames put on the wire, in the order of the calls. *)
Definition sent (log : list Call) : list Blob :=
  flat_map (fun c => match c with
                     | SendRealtimeInput _ media => [media]
                     | _ => []
                     end) log.




(** A media stream is open when it was granted and none of the calls stops
    its tracks. *)
Definition stream_open (log : list Call) (stream : Handle) : bool :=
  existsb (fun c => match c with
                    | MediaStreamGranted s => Nat.eqb s stream
                    | _ => false
                    end) log
  && negb (existsb (fun c => match c with
                             | TrackStop s => Nat.eqb s stream
                             | _ => false
                             end) log).

(** An audio context is open when it was created and not closed. *)
Definition context_open (log : list Call) (ctx : Handle) : bool :=
  existsb (fun c => match c with
                    | NewAudioContext h _ => Nat.eqb h ctx
                    | _ => false
                    end) log
  && negb (existsb (fun c => match c with
                             | ContextClose h => Nat.eqb h ctx
                             | _ => false
                             end) log).

(** The calls [disconnect] has to make for the refs the component holds. *)
Definition release_calls (c : Component) : list Call :=
  from_option (fun node => [NodeDisconnect node]) [] (processorRef c)
  ++ from_option (fun node => [NodeDisconnect node]) [] (inputSourceRef c)
  ++ from_option (fun ctx => [ContextClose ctx]) [] (audioContextRef c).

(** The audio thread advancing clocks, as events. *)
Definition renders (ticks : list (Handle * N)) : list Event :=
  map (fun t => EvRender (fst t) (snd t)) ticks.



(** A whole handling of an inbound blob with nothing in between but the
    audio clock advancing while the decode is in flight. *)
Definition handle_blob (audioBlob : Blob) (ticks : list (Handle * N))
    (result : option AudioBuffer) (w : World) : World :=
  let d := fresh (env w) in
  let w1 := exec (onMessage_begin audioBlob) w in
  exec (onMessage_resume d result) (run w1 (renders ticks)).

(** *** Shapes of a schedule *)






(** *** The outbound side of one session *)



(** *** Invariants and step summaries *)

(** What one event does to the cursor and to the schedule. *)
Inductive CursorMove (w w' : World) : Prop :=
| Kept :
    cursor w' = cursor w ->
    schedule (calls (env w')) = schedule (calls (env w)) ->
    CursorMove w w'
| Clamped (ctx : Handle) :
    audioContextRef (comp w) = Some ctx ->
    cursor w' = Qmax (cursor w) (clock w ctx) ->
    schedule (calls (env w')) = schedule (calls (env w)) ->
    CursorMove w w'
| Advanced (buf : AudioBuffer) :
    cursor w' = (cursor w + duration buf)%Q ->
    schedule (calls (env w')) = schedule (calls (env w)) ++ [(cursor w, duration buf)] ->
    CursorMove w w'.



(** *** Example runs *)

Definition go_live : list Event :=
  [EvStartSession true; EvUserMedia (Granted None); EvSettle 5 (Some 100); EvOpen].

Definition speech : Blob := mkBlob "AAAAQADA/38AgA==" "audio/pcm;rate=24000".

Definition two_seconds : AudioBuffer := mkBuffer 48000 24000.


End LiveCritic.

(** ** services/geminiService: the callbacks of [connectLiveSession] *)

Module GeminiLive.

Import AudioUtils LiveCritic.

(** A [Part] of a model turn, as far as [onmessage] reads it. *)
Record Part : Set := mkPart { inlineData : option Blob; text : option string }.

Record ModelTurn : Set := mkModelTurn { parts : option (list Part) }.

Record Transcription : Set := mkTranscription { transcript : option string }.

Record ServerContent : Set := mkServerContent {
  modelTurn : option ModelTurn;
  outputTranscription : option Transcription
}.

(** The [LiveServerMessage] of the SDK; every level is optional, as the
    optional chaining of the source has it. *)
Record LiveServerMessage : Set := mkMessage { serverContent : option ServerContent }.

(** [message.serverContent?.modelTurn?.parts?.[0]] *)
Definition firstPart (message : LiveServerMessage) : option Part :=
  match serverContent message with
  | Some content =>
      match modelTurn content with
      | Some turn =>
          match parts turn with
          | Some (p :: _) => Some p
          | _ => None
          end
      | None => None
      end
  | None => None
  end.

(** A string in a condition: the empty string is falsy. *)
Definition truthy (s : option string) : option string :=
  match s with
  | Some EmptyString | None => None
  | Some s' => Some s'
  end.

(** The [onmessage] callback that [connectLiveSession] hands to the SDK
    (geminiService, lines 338-353): the call it makes to the [onMessage] of
    its caller, if any. *)
Definition onmessage (message : LiveServerMessage) : option (Blob * string) :=
  let audioData :=
    match firstPart message with
    | Some part => inlineData part
    | None => None
    end in
  let partText :=
    match firstPart message with
    | Some part => text part
    | None => None
    end in
  let text := EmptyString in
  let text :=
    match truthy partText with
    | Some t => t
    | None => text
    end in
  let text :=
    match truthy (match serverContent message with
                  | Some content =>
                      match outputTranscription content with
                      | Some tr => transcript tr
                      | None => None
                      end
                  | None => None
                  end) with
    | Some t => t
    | None => text
    end in
  match audioData with
  | Some blob => Some (blob, text)
  | None => None
  end.

(** A server message arriving at the component: [onmessage] composed with
    the [onMessage] of LiveCritic, which takes the blob and drops the
    transcript. *)
Definition deliver (message : LiveServerMessage) : Eff unit :=
  match onmessage message with
  | Some (audioBlob, _) => onMessage_begin audioBlob
  | None => ret tt
  end.

End GeminiLive.

(** ** components/LiveCritic.tsx: the toggle button and whole runs *)

Module LiveCriticUi.

Import AudioUtils LiveCritic.

(** The main button (line 226):
    [onClick={active ? disconnect : startSession}]. *)
Definition onClick (outputOk : bool) : Eff unit :=
  fun w => if active (comp w) then disconnect w else startSession_begin outputOk w.

(** What a call issued in a step from [w] to [w'] can be: new objects take
    handles that were unused in [w], releases hit what the refs of [w] hold,
    and neither a track nor a session is ever released. *)
Definition issued (w w' : World) (c : Call) : Prop :=
  match c with
  | NewAudioContext h r =>
      (fresh (env w) <= h < fresh (env w'))%nat /\ (r = 24000 \/ r = 16000)%positive
  | MediaStreamGranted s => (fresh (env w) <= s < fresh (env w'))%nat
  | ContextClose h =>
      audioContextRef (comp w) = Some h /\ audioContextRef (comp w') = None
  | NodeDisconnect n =>
      processorRef (comp w) = Some n \/ inputSourceRef (comp w) = Some n
  | TrackStop _ | SessionClose _ => False
  | _ => True
  end.

(** The summary of one step. *)
Record StepFacts (w w' : World) (added : list Call) : Prop := {
  sf_calls : calls (env w') = calls (env w) ++ added;
  sf_fresh : (fresh (env w) <= fresh (env w'))%nat;
  sf_issued : Forall (issued w w') added;
  sf_one_context :
    forall h h' r r',
      In (NewAudioContext h r) added -> In (NewAudioContext h' r') added ->
      h = h' /\ r = r';
  sf_ref :
    forall c, audioContextRef (comp w') = Some c ->
      audioContextRef (comp w) = Some c \/ In (NewAudioContext c 24000) added
}.

(** The well-formedness that every run of the mounted component keeps. *)
Record Sound (w : World) : Prop := {
  so_contexts : forall h r, In (NewAudioContext h r) (calls (env w)) -> (h < fresh (env w))%nat;
  so_streams : forall s, In (MediaStreamGranted s) (calls (env w)) -> (s < fresh (env w))%nat;
  so_rates :
    forall h r r',
      In (NewAudioContext h r) (calls (env w)) ->
      In (NewAudioContext h r') (calls (env w)) -> r = r';
  so_never : Forall (fun c => match c with
                              | TrackStop _ | SessionClose _ => False
                              | _ => True
                              end) (calls (env w));
  so_ref :
    forall c, audioContextRef (comp w) = Some c ->
      In (NewAudioContext c 24000) (calls (env w))
      /\ ~ In (ContextClose c) (calls (env w));
  so_closed :
    forall h, In (ContextClose h) (calls (env w)) ->
      In (NewAudioContext h 24000) (calls (env w))
}.

(** A context that the component no longer refers to and has not closed. *)
Record Orphan (c : Handle) (w : World) : Prop := {
  or_old : (c < fresh (env w))%nat;
  or_ref : audioContextRef (comp w) <> Some c;
  or_open : ~ In (ContextClose c) (calls (env w))
}.

End LiveCriticUi.

(** ** JavaScript strings

    A string is its sequence of UTF-16 code units. *)

Module Js.

Definition JsString : Set := list N.

(** The code units of an ASCII literal. *)
Definition lit (s : string) : JsString := map N_of_ascii (list_ascii_of_string s).

(** WhiteSpace and LineTerminator of ECMAScript: what [trim] strips and what
    [\s] matches. *)
Definition is_white_space (c : N) : bool :=
  match c with
  | 9 | 10 | 11 | 12 | 13 | 32 | 160 | 5760
  | 8192 | 8193 | 8194 | 8195 | 8196 | 8197 | 8198 | 8199 | 8200 | 8201 | 8202
  | 8232 | 8233 | 8239 | 8287 | 12288 | 65279 => true
  | _ => false
  end%N.

Fixpoint trimStart (s : JsString) : JsString :=
  match s with
  | c :: s' => if is_white_space c then trimStart s' else s
  | [] => []
  end.

Definition trimEnd (s : JsString) : JsString := rev (trimStart (rev s)).

(** [s.trim()] *)
Definition trim (s : JsString) : JsString := trimEnd (trimStart s).

(** [s.split(sep)] for a separator of one code unit. *)
Fixpoint split (sep : N) (s : JsString) : list JsString :=
  match s with
  | [] => [[]]
  | c :: s' =>
      if N.eqb c sep then [] :: split sep s'
      else
        match split sep s' with
        | piece :: pieces => (c :: piece) :: pieces
        | [] => [[c]]
        end
  end.

(** A string in a condition: the empty string is falsy. *)
Definition truthy (s : JsString) : bool :=
  match s with
  | [] => false
  | _ :: _ => true
  end.

(** A possibly undefined value in a template literal. *)
Definition interpolate (v : option JsString) : JsString :=
  match v with
  | Some s => s
  | None => lit "undefined"
  end.

Definition comma : N := 44.

End Js.

(** ** components/Button.tsx *)

Module Button.

Inductive Variant : Set := primary | secondary | danger | neon.

(** The props of [Button]. [disabled] is one of the attributes that travel
    in [...props]: [None] when the caller does not pass it, [Some v] when it
    does ([v] may be undefined). [className] and [isLoading] are taken out of
    [props] by the destructuring. *)
Record ButtonProps (Children : Type) : Type := mkProps {
  children : Children;
  variant : option Variant;
  isLoading : option bool;
  className : option string;
  disabled : option (option bool)
}.

Arguments mkProps {Children}.
Arguments children {Children}.
Arguments variant {Children}.
Arguments isLoading {Children}.
Arguments className {Children}.
Arguments disabled {Children}.

Definition baseStyles : string :=
  "px-4 py-2 rounded font-bold uppercase tracking-wider transition-all duration-200 disabled:opacity-50 disabled:cursor-not-allowed flex items-center justify-center gap-2".

Definition variants (v : Variant) : string :=
  match v with
  | primary => "bg-white text-black hover:bg-gray-200"
  | secondary => "bg-panel text-white border border-gray-700 hover:border-gray-500"
  | danger => "bg-red-600 text-white hover:bg-red-700"
  | neon => "bg-acid text-black hover:bg-lime-400 shadow-[0_0_15px_rgba(204,255,0,0.4)]"
  end.

Inductive Label (Children : Type) : Type :=
| Processing
| Shown (c : Children).

Arguments Processing {Children}.
Arguments Shown {Children}.

(** The rendered [<button>]. *)
Record Rendered (Children : Type) : Type := mkRendered {
  r_className : string;
  r_disabled : bool;
  r_label : Label Children
}.

Arguments mkRendered {Children}.
Arguments r_className {Children}.
Arguments r_disabled {Children}.
Arguments r_label {Children}.

Definition is_true (v : option bool) : bool :=
  match v with
  | Some true => true
  | _ => false
  end.

(** [Button] (lines 8-35). The attributes are
    [className=..., disabled={isLoading || props.disabled}, {...props}] in
    that order, so a [disabled] in [props] replaces the computed one. *)
Definition render {Children : Type} (p : ButtonProps Children) : Rendered Children :=
  let variant := from_option id primary (variant p) in
  let className := from_option id EmptyString (className p) in
  let computed :=
    if is_true (isLoading p) then Some true
    else match disabled p with Some v => v | None => None end in
  let attribute := match disabled p with Some v => v | None => computed end in
  mkRendered
    (baseStyles ++ " " ++ variants variant ++ " " ++ className)%string
    (is_true attribute)
    (if is_true (isLoading p) then Processing else Shown (children p)).

End Button.

(** ** services/geminiService: [editImage] *)

Module GeminiImage.

Import Js.

Record InlineData : Set := mkInline { data : option JsString; mimeType : option JsString }.

Record Part : Set := mkPart { inlineData : option InlineData; text : option JsString }.

(** The request [editImage] sends (lines 244-257). *)
Record Request : Set := mkRequest {
  model : string;
  image : InlineData;
  instruction : JsString
}.

Definition request (imageBase64 : option JsString) (prompt : JsString) : Request :=
  mkRequest "gemini-2.5-flash-image"
    (mkInline imageBase64 (Some (lit "image/png"))) prompt.

Inductive Outcome (A : Type) : Type :=
| Returned (a : A)
| Threw (message : string).

Arguments Returned {A}.
Arguments Threw {A}.

(** The loop of [editImage] (lines 259-264) over
    [response.candidates?.[0]?.content?.parts || []]. *)
Fixpoint firstImage (parts : list Part) : Outcome (option JsString) :=
  match parts with
  | [] => Threw "No image generated"
  | part :: rest =>
      match inlineData part with
      | Some inline => Returned (data inline)
      | None => firstImage rest
      end
  end.

(** [editImage] from the answer of [generateContent] on (lines 242-269):
    [response] is [Threw] when the call was rejected, else the parts of the
    first candidate ([None] when a level of the optional chain is missing).
    The [catch] logs and rethrows. *)
Definition editImage (response : Outcome (option (list Part))) : Outcome (option JsString) :=
  match response with
  | Threw e => Threw e
  | Returned parts => firstImage (from_option id [] parts)
  end.

End GeminiImage.

(** ** components/ImageEditor.tsx *)

Module ImageEditor.

Import Js GeminiImage.

(** The component with its surroundings: its state ([prompt], [loading]),
    the prop [initialImage] (the cover image that the parent holds and that
    [onImageUpdate] replaces), the requests made to [editImage] and the
    alerts shown. *)
Record Editor : Set := mkEditor {
  prompt : JsString;
  loading : bool;
  initialImage : JsString;
  requests : list Request;
  alerts : list string
}.

Definition PNG_PREFIX : JsString := lit "data:image/png;base64,".

(** [handleEdit] up to [await editImage] (lines 14-20). *)
Definition handleEdit_begin (e : Editor) : Editor :=
  if negb (truthy (trim (prompt e))) then e
  else
    let rawBase64 := nth_error (split comma (initialImage e)) 1 in
    mkEditor (prompt e) true (initialImage e)
      (requests e ++ [request rawBase64 (prompt e)]) (alerts e).

(** [handleEdit] from the settlement of [editImage] on (lines 20-27). *)
Definition handleEdit_resume (result : Outcome (option JsString)) (e : Editor) : Editor :=
  match result with
  | Returned newImageRaw =>
      mkEditor [] false (PNG_PREFIX ++ interpolate newImageRaw) (requests e) (alerts e)
  | Threw _ =>
      mkEditor (prompt e) false (initialImage e) (requests e)
        (alerts e ++ ["Failed to edit image"%string])
  end.

(** The props of the Go button (line 46). *)
Definition goButton (e : Editor) : Button.ButtonProps unit :=
  Button.mkProps tt (Some Button.neon) (Some (loading e))
    (Some "!py-1 !px-3 text-xs"%string) (Some (Some (negb (truthy (prompt e))))).

(** [onChange] of the input (line 41). *)
Definition onChange (value : JsString) (e : Editor) : Editor :=
  mkEditor value (loading e) (initialImage e) (requests e) (alerts e).

(** [onKeyDown] of the input (line 44). *)
Definition onKeyDown (key : string) (e : Editor) : Editor :=
  if String.eqb key "Enter" then handleEdit_begin e else e.

End ImageEditor.

(** ** types.ts *)

Module Blog.

Import Js.

Inductive MediaType : Set := IMAGE | VIDEO | YOUTUBE.

Inductive Genre : Set :=
| Goth | Industrial | Darkwave | PostPunk | EBM | Synthpop | Metal | Other.

Definition genre_eqb (a b : Genre) : bool :=
  match a, b with
  | Goth, Goth | Industrial, Industrial | Darkwave, Darkwave | PostPunk, PostPunk
  | EBM, EBM | Synthpop, Synthpop | Metal, Metal | Other, Other => true
  | _, _ => false
  end.

Record Source : Set := mkSource { uri : JsString; sourceTitle : JsString }.

Record BlogPost : Set := mkPost {
  id : JsString;
  title : JsString;
  content : JsString;
  metaDescription : option JsString;
  genre : Genre;
  youtubeUrl : option JsString;
  mediaUrl : option JsString;
  mediaType : option MediaType;
  tags : list JsString;
  date : JsString;
  groundingSources : option (list Source)
}.

(** [Partial<BlogPost>] as the post creator uses it: the fields that it
    writes and reads. *)
Record Draft : Set := mkDraft {
  d_title : option JsString;
  d_content : option JsString;
  d_metaDescription : option JsString;
  d_youtubeUrl : option JsString;
  d_groundingSources : option (list Source)
}.

Definition emptyDraft : Draft := mkDraft None None None None None.

(** A possibly missing or null string in a condition. *)
Definition present (s : option JsString) : bool :=
  match s with
  | Some s' => truthy s'
  | None => false
  end.

End Blog.

(** ** components/PostCreator.tsx *)

Module PostCreator.

Import Js Blog.

(** What [localStorage] holds under the draft key: JSON of the saved data.
    [coverImage] is [None] when the key is left out (the fall-back save),
    [Some None] when it is [null]. *)
Record Saved : Set := mkSaved {
  s_url : JsString;
  s_draft : Draft;
  s_tags : list JsString;
  s_genre : Genre;
  s_coverImage : option (option JsString)
}.

(** The item under the draft key: text that [JSON.parse] rejects, or the
    JSON of saved data. *)
Inductive Item : Set :=
| Garbled
| Json (data : Saved).

Record Creator : Set := mkCreator {
  url : JsString;
  analyzing : bool;
  draft : Draft;
  genre : Genre;
  coverImage : option JsString;
  videoUrl : option JsString;
  tags : list JsString;
  tagInput : JsString;
  lastSaved : option N;
  optimizingSeo : bool
}.

Definition defaultTags : list JsString := [lit "Music"; lit "Review"].

(** The component as mounted, before the effects run. *)
Definition initial : Creator :=
  mkCreator [] false emptyDraft Goth None None defaultTags [] None false.

Definition setTags (t : list JsString) (c : Creator) : Creator :=
  mkCreator (url c) (analyzing c) (draft c) (genre c) (coverImage c) (videoUrl c)
    t (tagInput c) (lastSaved c) (optimizingSeo c).

Definition setTagInput (t : JsString) (c : Creator) : Creator :=
  mkCreator (url c) (analyzing c) (draft c) (genre c) (coverImage c) (videoUrl c)
    (tags c) t (lastSaved c) (optimizingSeo c).

Definition setLastSaved (t : option N) (c : Creator) : Creator :=
  mkCreator (url c) (analyzing c) (draft c) (genre c) (coverImage c) (videoUrl c)
    (tags c) (tagInput c) t (optimizingSeo c).

(** [tags.includes(tag)] *)
Definition includes (tag : JsString) (l : list JsString) : bool :=
  bool_decide (tag ∈ l).

(** [handleAddTag] (lines 122-127). *)
Definition handleAddTag (c : Creator) : Creator :=
  if truthy (trim (tagInput c)) && negb (includes (trim (tagInput c)) (tags c)) then
    setTagInput [] (setTags (tags c ++ [trim (tagInput c)]) c)
  else c.

(** [handleRemoveTag] (lines 129-131). *)
Definition handleRemoveTag (tagToRemove : JsString) (c : Creator) : Creator :=
  setTags (filter (fun tag => tag <> tagToRemove) (tags c)) c.

(** The load effect (lines 31-46). *)
Definition loadDraft (item : option Item) (c : Creator) : Creator :=
  match item with
  | Some (Json parsed) =>
      mkCreator
        (if truthy (s_url parsed) then s_url parsed else url c)
        (analyzing c)
        (s_draft parsed)
        (s_genre parsed)
        (match s_coverImage parsed with
         | Some (Some image) => if truthy image then Some image else coverImage c
         | _ => coverImage c
         end)
        (videoUrl c)
        (s_tags parsed)
        (tagInput c) (lastSaved c) (optimizingSeo c)
  | Some Garbled | None => c
  end.

Definition dataToSave (c : Creator) : Saved :=
  mkSaved (url c) (draft c) (tags c) (genre c) (Some (coverImage c)).

(** [const { coverImage: _, ...rest } = dataToSave] *)
Definition withoutImage (s : Saved) : Saved :=
  mkSaved (s_url s) (s_draft s) (s_tags s) (s_genre s) None.

(** The callback of the save timer (lines 50-66); [fits] is whether
    [localStorage.setItem] takes the item or throws for lack of room, [now]
    the time of the save. *)
Definition saveDraft (fits : Saved -> bool) (now : N) (c : Creator) (item : option Item)
  : Creator * option Item :=
  if fits (dataToSave c) then
    (setLastSaved (Some now) c, Some (Json (dataToSave c)))
  else if fits (withoutImage (dataToSave c)) then
    (setLastSaved (Some now) c, Some (Json (withoutImage (dataToSave c))))
  else (c, item).

(** [a || b] on possibly null strings. *)
Definition orElse (a b : option JsString) : option JsString :=
  if present a then a else b.

(** The post that [handlePublish] builds (lines 143-155); [now] is
    [Date.now().toString()] and [today] is [new Date().toLocaleDateString()]. *)
Definition newPost (now today : JsString) (t body : JsString) (c : Creator) : BlogPost :=
  mkPost now t body (d_metaDescription (draft c)) (genre c) (d_youtubeUrl (draft c))
    (if present (orElse (videoUrl c) (coverImage c))
     then orElse (videoUrl c) (coverImage c) else None)
    (Some (if present (videoUrl c) then VIDEO else IMAGE))
    (tags c) today (d_groundingSources (draft c)).

(** [handlePublish] (lines 140-170) on the creator, on the item in storage
    and on the posts that [onPostCreated] hands over. *)
Definition handlePublish (now today : JsString) (onPostCreated : BlogPost -> list BlogPost -> list BlogPost)
    (c : Creator) (item : option Item) (posts : list BlogPost)
  : Creator * option Item * list BlogPost :=
  match d_title (draft c), d_content (draft c) with
  | Some t, Some body =>
      if truthy t && truthy body then
        (mkCreator [] (analyzing c) emptyDraft Goth None None defaultTags
           (tagInput c) None (optimizingSeo c),
         None,
         onPostCreated (newPost now today t body c) posts)
      else (c, item, posts)
  | _, _ => (c, item, posts)
  end.

(** The props of the publish button (lines 348-355). *)
Definition publishButton (c : Creator) : Button.ButtonProps unit :=
  Button.mkProps tt (Some Button.neon) None (Some "w-full lg:w-auto"%string)
    (Some (Some (negb (present (d_title (draft c))) || negb (present (d_content (draft c)))))).

End PostCreator.

(** ** App.tsx *)

Module App.

Import Js Blog.

(** [handlePostCreated] (lines 10-12). *)
Definition handlePostCreated (newPost : BlogPost) (posts : list BlogPost) : list BlogPost :=
  newPost :: posts.

(** [filteredPosts] (lines 14-16); [None] is the selection ['All']. *)
Definition filteredPosts (selectedGenre : option Genre) (posts : list BlogPost)
  : list BlogPost :=
  match selectedGenre with
  | None => posts
  | Some g => List.filter (fun post => genre_eqb (genre post) g) posts
  end.

Inductive Media : Set :=
| Video (src : JsString)
| Img (src : JsString).

(** The media element of a post (lines 67-75). *)
Definition media (post : BlogPost) : option Media :=
  match mediaUrl post with
  | Some u =>
      if truthy u then
        Some (match mediaType post with
              | Some VIDEO => Video u
              | _ => Img u
              end)
      else None
  | None => None
  end.

End App.

(** ** services/geminiService: reading the answers of the text model *)

Module GeminiText.

Import Js Blog.

(** The canonical form of a code unit under the [i] flag (without the [u]
    flag): an ASCII letter is its upper-case letter, and no code unit from
    128 on is folded onto an ASCII one. *)
Definition canonicalize (c : N) : N :=
  if (97 <=? c)%N && (c <=? 122)%N then (c - 32)%N else c.

(** The rest of [s] after the literal [pat], matched at the start of [s]
    under the [i] flag. *)
Fixpoint after_literal (pat s : JsString) : option JsString :=
  match pat with
  | [] => Some s
  | p :: pat' =>
      match s with
      | c :: s' =>
          if N.eqb (canonicalize p) (canonicalize c) then after_literal pat' s' else None
      | [] => None
      end
  end.

(** LineTerminator: what [.] does not match. *)
Definition is_line_terminator (c : N) : bool :=
  match c with
  | 10 | 13 | 8232 | 8233 => true
  | _ => false
  end%N.

(** A greedy [.*] at the start of [s]: the longest run without a line
    terminator. *)
Fixpoint line (s : JsString) : JsString :=
  match s with
  | c :: s' => if is_line_terminator c then [] else c :: line s'
  | [] => []
  end.

(** [s.match(re)] for [re] the literal [PAT], then [\s*], then a group
    around [.*], under the [i] flag: the first capture group of the leftmost
    match, [None] when [PAT] occurs nowhere. [\s*] takes all the white space
    that follows [PAT], line breaks included, and the group the rest of the
    line reached. *)
Fixpoint match_marker (pat s : JsString) : option JsString :=
  match after_literal pat s with
  | Some rest => Some (line (trimStart rest))
  | None =>
      match s with
      | _ :: s' => match_marker pat s'
      | [] => None
      end
  end.

(** What precedes the leftmost match of [/PAT\s*/i] in [s]: all of [s] when
    there is none. *)
Fixpoint before_marker (pat s : JsString) : JsString :=
  match after_literal pat s with
  | Some _ => []
  | None =>
      match s with
      | c :: s' => c :: before_marker pat s'
      | [] => []
      end
  end.

(** What follows the leftmost match of [/PAT\s*/i] in [s]. *)
Fixpoint after_marker (pat s : JsString) : option JsString :=
  match after_literal pat s with
  | Some rest => Some (trimStart rest)
  | None =>
      match s with
      | _ :: s' => after_marker pat s'
      | [] => None
      end
  end.

(** [s.split(/PAT\s*/i)] for a non-empty [PAT]: the pieces between the
    matches, found from left to right. Every match takes at least one code
    unit, so [length s] rounds are enough. *)
Fixpoint split_rounds (rounds : nat) (pat s : JsString) : list JsString :=
  match rounds with
  | O => [s]
  | S n =>
      match after_marker pat s with
      | Some rest => before_marker pat s :: split_rounds n pat rest
      | None => [s]
      end
  end.

Definition split_marker (pat s : JsString) : list JsString :=
  split_rounds (length s) pat s.

(** [pat] matches at no position of [s]. *)
Definition absent (pat s : JsString) : Prop :=
  forall i, after_literal pat (drop i s) = None.

(** [s.replace(/^#+\s*/, '')] *)
Fixpoint drop_hashes (s : JsString) : JsString :=
  match s with
  | c :: s' => if N.eqb c 35 then drop_hashes s' else s
  | [] => []
  end.

Definition strip_heading (s : JsString) : JsString :=
  match s with
  | c :: _ => if N.eqb c 35 then trimStart (drop_hashes s) else s
  | [] => []
  end.

(** [s.replace(/\*\*/g, ...)] with the empty string. *)
Fixpoint remove_bold (s : JsString) : JsString :=
  match s with
  | [] => []
  | c :: s' =>
      match s' with
      | c' :: s'' =>
          if N.eqb c 42 && N.eqb c' 42 then remove_bold s'' else c :: remove_bold s'
      | [] => [c]
      end
  end.

(** [pieces.join(sep)] *)
Fixpoint join (sep : N) (pieces : list JsString) : JsString :=
  match pieces with
  | [] => []
  | [piece] => piece
  | piece :: rest => piece ++ sep :: join sep rest
  end.

Definition TITLE : JsString := lit "TITLE:".
Definition DESCRIPTION : JsString := lit "DESCRIPTION:".
Definition CONTENT : JsString := lit "CONTENT:".

Record Parsed : Set := mkParsed {
  p_title : JsString;
  p_metaDescription : JsString;
  p_content : JsString
}.

(** The parsing of [analyzeLink] (lines 173-194 of geminiService);
    [responseText] is [response.text]. *)
Definition parseAnalysis (responseText : option JsString) : Parsed :=
  let text := if present responseText then default [] responseText
              else lit "Could not analyze link." in
  let title := lit "New Post" in
  let metaDescription := [] in
  let content := [] in
  let titleMatch := match_marker TITLE text in
  let descMatch := match_marker DESCRIPTION text in
  let contentSplit := split_marker CONTENT text in
  let title := match titleMatch with Some m => trim m | None => title end in
  let metaDescription := match descMatch with Some m => trim m | None => metaDescription end in
  let content := match contentSplit with
                 | _ :: piece :: _ => trim piece
                 | _ => content
                 end in
  if negb (truthy content) && negb (bool_decide (is_Some titleMatch)) then
    let lines := split 10 text in
    mkParsed (remove_bold (strip_heading (hd [] lines))) metaDescription
      (trim (join 10 (tl lines)))
  else mkParsed title metaDescription content.

(** The sources of [analyzeLink] (lines 174 and 196): the [web] entries of
    the grounding chunks that have one. *)
Definition sourcesOf (chunks : option (list (option Source))) : list Source :=
  omap (fun web => web) (default [] chunks).

(** The parsing of [optimizePostMetadata] (lines 223-233 of geminiService). *)
Definition parseOptimized (currentTitle : JsString) (responseText : option JsString)
  : JsString * JsString :=
  let text := if present responseText then default [] responseText else [] in
  let title := currentTitle in
  let metaDescription := [] in
  let title := match match_marker TITLE text with Some m => trim m | None => title end in
  let metaDescription :=
    match match_marker DESCRIPTION text with Some m => trim m | None => metaDescription end in
  (title, metaDescription).

(** The answer in the format that the prompt of [analyzeLink] asks for. *)
Definition answer (t d c : JsString) : JsString :=
  (lit "TITLE: " ++ t) ++ 10%N :: (lit "DESCRIPTION: " ++ d) ++ 10%N :: lit "CONTENT: " ++ c.

Definition single_line (s : JsString) : Prop :=
  forallb (fun c => negb (is_line_terminator c)) s = true.

(** A non-empty line without white space around it. *)
Definition clean (s : JsString) : Prop := s <> [] /\ trim s = s /\ single_line s.

(** No two asterisks in a row. *)
Fixpoint bold_free (s : JsString) : bool :=
  match s with
  | [] => true
  | c :: s' =>
      match s' with
      | c' :: _ => negb (N.eqb c 42 && N.eqb c' 42) && bold_free s'
      | [] => true
      end
  end.

End GeminiText.

(** ** components/PostCreator.tsx: the calls to the text model *)

Module PostCreatorAi.

Import Js Blog PostCreator GeminiText.

Definition setDraft (d : Draft) (c : Creator) : Creator :=
  mkCreator (url c) (analyzing c) d (genre c) (coverImage c) (videoUrl c)
    (tags c) (tagInput c) (lastSaved c) (optimizingSeo c).

Definition setOptimizingSeo (b : bool) (c : Creator) : Creator :=
  mkCreator (url c) (analyzing c) (draft c) (genre c) (coverImage c) (videoUrl c)
    (tags c) (tagInput c) (lastSaved c) b.

Definition setAnalyzing (b : bool) (c : Creator) : Creator :=
  mkCreator (url c) b (draft c) (genre c) (coverImage c) (videoUrl c)
    (tags c) (tagInput c) (lastSaved c) (optimizingSeo c).

(** [handleOptimizeSeo] up to [await optimizePostMetadata] (lines 91-95):
    the creator and the title and content sent, if any. *)
Definition handleOptimizeSeo_begin (c : Creator) : Creator * option (JsString * JsString) :=
  if present (d_content (draft c)) then
    (setOptimizingSeo true c,
     Some (if present (d_title (draft c)) then default [] (d_title (draft c))
           else lit "New Post",
           default [] (d_content (draft c))))
  else (c, None).

(** [handleOptimizeSeo] from the settlement on (lines 95-105); [answer] is
    [None] when [generateContent] was rejected, else [response.text]. *)
Definition handleOptimizeSeo_resume (currentTitle : JsString)
    (answer : option (option JsString)) (c : Creator) : Creator :=
  match answer with
  | Some responseText =>
      let result := parseOptimized currentTitle responseText in
      setOptimizingSeo false
        (setDraft (mkDraft (Some (fst result)) (d_content (draft c)) (Some (snd result))
                     (d_youtubeUrl (draft c)) (d_groundingSources (draft c))) c)
  | None => setOptimizingSeo false c
  end.

(** [handleUrlAnalyze] from the settlement of [analyzeLink] on (lines 75-88);
    [analyzed] is the url that was sent, [answer] is [None] when
    [generateContent] was rejected. The count is that of the alerts shown. *)
Definition handleUrlAnalyze_resume (analyzed : JsString)
    (answer : option (option JsString * option (list (option Source))))
    (c : Creator) : Creator * nat :=
  match answer with
  | Some (responseText, chunks) =>
      let result := parseAnalysis responseText in
      (setAnalyzing false
         (setDraft (mkDraft (Some (p_title result)) (Some (p_content result))
                      (Some (p_metaDescription result)) (Some analyzed)
                      (Some (sourcesOf chunks))) c), O)
  | None => (setAnalyzing false c, 1%nat)
  end.

End PostCreatorAi.

(** * Properties of the component *)

Import AudioUtils LiveCritic.

(** ** The handlers as equations *)

Section Handlers.

Lemma Qmax_cases (x y : Q) : (Qmax x y = x /\ (y <= x)%Q) \/ (Qmax x y = y /\ (x <= y)%Q).
Proof.
  unfold Qmax, GenericMinMax.gmax.
  destruct (x ?= y)%Q eqn:E.
  - left. split; [reflexivity|]. apply Qeq_alt in E. rewrite E. apply Qle_refl.
  - right. split; [reflexivity|]. apply Qlt_alt in E. apply Qlt_le_weak, E.
  - left. split; [reflexivity|]. apply Qgt_alt in E. apply Qlt_le_weak, E.
Qed.

Lemma duration_nonneg (b : AudioBuffer) : (0 <= duration b)%Q.
Proof. unfold duration, Qle. simpl. lia. Qed.

Lemma onMessage_begin_live (w : World) (ctx : Handle) (blob : Blob) :
  audioContextRef (comp w) = Some ctx ->
  exec (onMessage_begin blob) w =
  mkWorld (set_nextStartTimeRef (Qmax (cursor w) (clock w ctx)) (comp w))
          (set_decodes (<[fresh (env w) := (ctx, blob)]> (decodes (env w)))
             (set_fresh (S (fresh (env w))) (env w))).
Proof.
  intros H. unfold exec, onMessage_begin, bind, read. rewrite H. reflexivity.
Qed.

Lemma onMessage_resume_decoded (w : World) (d ctx : Handle) (blob : Blob) (buf : AudioBuffer) :
  decodes (env w) !! d = Some (ctx, blob) ->
  let source := fresh (env w) in
  let timer := S (fresh (env w)) in
  exec (onMessage_resume d (Some buf)) w =
  mkWorld
    (setVolume (8 # 10) (setIsSpeaking true
       (set_nextStartTimeRef (cursor w + duration buf) (comp w))))
    (mkBrowser (S (S (fresh (env w)))) (contexts (env w)) (promises (env w))
       (mediaRequests (env w)) (delete d (decodes (env w)))
       ({[timer]} ∪ timers (env w))
       (calls (env w) ++
          [CreateBufferSource ctx source; NodeConnect source (Destination ctx);
           BufferSourceStart source buf (cursor w);
           SetTimeout timer (duration buf * 1000)])).
Proof.
  intros H. unfold exec, onMessage_resume. rewrite H. cbn.
  rewrite <- !app_assoc. reflexivity.
Qed.


Lemma Qmax_left (x y : Q) : (y <= x)%Q -> Qmax x y = x.
Proof.
  intros H. destruct (Qmax_cases x y) as [[E _]|[E L]]; [exact E|].
  unfold Qmax, GenericMinMax.gmax in *.
  destruct (x ?= y)%Q eqn:C; try reflexivity.
  apply Qlt_alt in C. exfalso. apply (Qlt_not_le _ _ C H).
Qed.

Lemma run_renders (ticks : list (Handle * N)) (w : World) :
  exists cs, run w (renders ticks) = mkWorld (comp w) (set_contexts cs (env w)).
Proof.
  revert w. induction ticks as [|[c n] ticks IH]; intros w.
  - exists (contexts (env w)). destruct w as [c [? ? ? ? ? ? ?]]. reflexivity.
  - change (run w (renders ((c, n) :: ticks)))
      with (run (step w (EvRender c n)) (renders ticks)).
    destruct (IH (step w (EvRender c n))) as [cs ->].
    exists cs. reflexivity.
Qed.

Lemma handle_blob_decoded (w : World) (ctx : Handle) (blob : Blob)
    (ticks : list (Handle * N)) (buf : AudioBuffer) :
  audioContextRef (comp w) = Some ctx ->
  let start := Qmax (cursor w) (clock w ctx) in
  let w' := handle_blob blob ticks (Some buf) w in
  comp w' = setVolume (8 # 10) (setIsSpeaking true
              (set_nextStartTimeRef (start + duration buf) (comp w)))
  /\ calls (env w') =
       calls (env w) ++
         [CreateBufferSource ctx (S (fresh (env w)));
          NodeConnect (S (fresh (env w))) (Destination ctx);
          BufferSourceStart (S (fresh (env w))) buf start;
          SetTimeout (S (S (fresh (env w)))) (duration buf * 1000)].
Proof.
  intros H start w'. subst w'. unfold handle_blob.
  rewrite (onMessage_begin_live _ _ _ H).
  match goal with |- context [run ?x (renders ticks)] =>
    destruct (run_renders ticks x) as [cs ->] end.
  erewrite onMessage_resume_decoded by (cbn; apply lookup_insert_eq).
  cbn. split; reflexivity.
Qed.

End Handlers.

(** ** Playback scheduling *)



(** ** Teardown as an equation *)

Section Teardown.

Lemma disconnect_spec (w : World) :
  disconnect w =
  (Some tt,
   mkWorld
     (mkComponent false idle 0 false None (sessionPromiseRef (comp w)) None None
        (nextStartTimeRef (comp w)))
     (set_calls (calls (env w) ++ release_calls (comp w)) (env w))).
Proof.
  destruct w as [[a s v k [ctx|] p [src|] [proc|] t] b]; cbn;
    unfold release_calls, set_calls; cbn;
    rewrite <- ?app_assoc, ?app_nil_r; try reflexivity.
  all: destruct b; reflexivity.
Qed.

Lemma schedule_app (l l' : list Call) : schedule (l ++ l') = schedule l ++ schedule l'.
Proof. apply flat_map_app. Qed.

Lemma schedule_release_calls (c : Component) : schedule (release_calls c) = [].
Proof.
  unfold release_calls.
  destruct (processorRef c), (inputSourceRef c), (audioContextRef c); reflexivity.
Qed.

Lemma schedule_sends (s : Handle) (rs : list Blob) :
  schedule (map (SendRealtimeInput s) rs) = [].
Proof. induction rs; [reflexivity | exact IHrs]. Qed.

End Teardown.

(** ** What an event does to the cursor *)

Section Cursor.

Ltac kept :=
  apply Kept; unfold exec; cbn -[release_calls];
  rewrite ?schedule_app, ?schedule_release_calls, ?schedule_sends, ?app_nil_r;
  cbn; rewrite ?app_nil_r; reflexivity.

Lemma exec_when (b : bool) (m : Eff unit) (w : World) :
  exec (when b m) w = if b then exec m w else w.
Proof. destruct b; reflexivity. Qed.

Lemma exec_disconnect (w : World) :
  exec disconnect w =
  mkWorld
    (mkComponent false idle 0 false None (sessionPromiseRef (comp w)) None None
       (nextStartTimeRef (comp w)))
    (set_calls (calls (env w) ++ release_calls (comp w)) (env w)).
Proof. unfold exec. rewrite disconnect_spec. reflexivity. Qed.

Lemma step_cursor (w : World) (e : Event) : CursorMove w (step w e).
Proof.
  destruct e as [ok|outcome|p session| |blob|d result|timer| | | |node chunk|ctx n];
    unfold step, handle.
  - destruct ok; kept.
  - unfold exec, bind. destruct (mediaRequests (env w)); [kept|].
    destruct outcome as [|[[| | |]|]]; kept.
  - unfold exec, settle. destruct (promises (env w) !! p) as [[rs|s|]|]; try kept.
    destruct session; kept.
  - unfold exec; cbv beta. destruct (connected (calls (env w))); kept.
  - change (CursorMove w
      (exec (when (connected (calls (env w))) (onMessage_begin blob)) w)).
    rewrite exec_when. destruct (connected (calls (env w))); [|kept].
    destruct (audioContextRef (comp w)) as [ctx|] eqn:H.
    + rewrite (onMessage_begin_live w ctx blob H).
      apply (Clamped _ _ ctx H); reflexivity.
    + unfold onMessage_begin, exec, bind, read. rewrite H. kept.
  - destruct (decodes (env w) !! d) as [[ctx blob]|] eqn:H.
    + destruct result as [buf|].
      * rewrite (onMessage_resume_decoded w d ctx blob buf H).
        apply (Advanced _ _ buf); cbn; [reflexivity|].
        rewrite schedule_app. reflexivity.
      * unfold onMessage_resume, exec. rewrite H. kept.
    + unfold onMessage_resume, exec. rewrite H. kept.
  - unfold exec. destruct (decide (timer ∈ timers (env w))); kept.
  - change (CursorMove w (exec (when (connected (calls (env w))) onError) w)).
    rewrite exec_when. destruct (connected (calls (env w))); [|kept].
    unfold onError, exec, bind. cbn. rewrite disconnect_spec. kept.
  - change (CursorMove w (exec (when (connected (calls (env w))) onClose) w)).
    rewrite exec_when. destruct (connected (calls (env w))); [|kept].
    unfold onClose, exec, bind. cbn. rewrite disconnect_spec. kept.
  - rewrite exec_disconnect. kept.
  - change (CursorMove w
      (exec (when (has_handler node (calls (env w))) (onaudioprocess chunk)) w)).
    rewrite exec_when. destruct (has_handler node (calls (env w))); [|kept].
    unfold onaudioprocess, exec, bind, read.
    destruct (sessionPromiseRef (comp w)) as [p|]; [|kept].
    unfold promise_then. destruct (promises (env w) !! p) as [[rs|s|]|]; kept.
  - kept.
Qed.

End Cursor.

(** ** The playback cursor over whole runs *)

Section Schedule.



Lemma step_cursor_mono (w : World) (e : Event) : (cursor w <= cursor (step w e))%Q.
Proof.
  destruct (step_cursor w e) as [Hc _|ctx _ Hc _|buf Hc _]; rewrite Hc.
  - apply Qle_refl.
  - apply Q.le_max_l.
  - rewrite <- (Qplus_0_r (cursor w)) at 1. apply Qplus_le_r, duration_nonneg.
Qed.

Lemma run_cursor_mono (es : list Event) (w : World) : (cursor w <= cursor (run w es))%Q.
Proof.
  revert w. induction es as [|e es IH]; intros w; [apply Qle_refl|].
  apply Qle_trans with (cursor (step w e)); [apply step_cursor_mono | apply IH].
Qed.




End Schedule.




(** ** Decode failures *)

Section DecodeFailure.




End DecodeFailure.



(** ** Session set-up failures *)



(** ** Teardown *)

Section Disconnect.



End Disconnect.



(** C6: a second [disconnect] right after the first changes nothing at all:
    both calls end in status [idle], inactive, with the processor, source and
    context refs null, and the second call issues no call. Across the two
    calls every resource the refs held is released by exactly one call: for a
    component holding processor [p], source [s] and output context [c] the
    calls issued are the disconnect of [p], the disconnect of [s] and the
    close of [c], once each. *)
Theorem C6_disconnect_is_idempotent (w : World) :
  let w1 := exec disconnect w in
  let w2 := exec disconnect w1 in
  w2 = w1
  /\ status (comp w2) = idle
  /\ active (comp w2) = false
  /\ processorRef (comp w2) = None
  /\ inputSourceRef (comp w2) = None
  /\ audioContextRef (comp w2) = None
  /\ calls (env w2) = calls (env w) ++ release_calls (comp w)
  /\ (forall p s c : Handle,
         processorRef (comp w) = Some p ->
         inputSourceRef (comp w) = Some s ->
         audioContextRef (comp w) = Some c ->
         calls (env w2) =
           calls (env w) ++ [NodeDisconnect p; NodeDisconnect s; ContextClose c]).
Proof.
  intros w1 w2.
  assert (E : w2 = w1).
  { subst w2 w1. rewrite !exec_disconnect. cbn.
    unfold release_calls at 1. cbn. rewrite app_nil_r.
    destruct w as [c [? ? ? ? ? ? ?]]; reflexivity. }
  rewrite E. subst w1. rewrite exec_disconnect. cbn.
  repeat split; try reflexivity.
  intros p s c Hp Hs Hc. unfold release_calls. rewrite Hp, Hs, Hc. reflexivity.
Qed.

Lemma C6_disconnect_twice_when_live :
  let w := run mounted go_live in
  processorRef (comp w) = Some 4%nat
  /\ inputSourceRef (comp w) = Some 3%nat
  /\ audioContextRef (comp w) = Some 0%nat
  /\ calls (env (exec disconnect (exec disconnect w))) =
       calls (env w) ++ [NodeDisconnect 4; NodeDisconnect 3; ContextClose 0].
Proof.
  intros w.
  assert (Hp : processorRef (comp w) = Some 4%nat) by (vm_compute; reflexivity).
  assert (Hs : inputSourceRef (comp w) = Some 3%nat) by (vm_compute; reflexivity).
  assert (Hc : audioContextRef (comp w) = Some 0%nat) by (vm_compute; reflexivity).
  split; [exact Hp|]. split; [exact Hs|]. split; [exact Hc|].
  exact (proj2 (proj2 (proj2 (proj2 (proj2 (proj2 (proj2
    (C6_disconnect_is_idempotent w))))))) 4%nat 3%nat 0%nat Hp Hs Hc).
Defined.

(** C7, evaluated where it fails: a blob arrives in a live session, the
    session is disconnected while the decode is in flight, and the decode
    then completes. The completion starts a buffer source on the closed
    context, advances the cursor by two seconds and raises the speaking
    indicator, although the component is idle with its context ref null. *)
Theorem C7_late_decode_still_schedules :
  let w1 := run mounted (go_live ++ [EvMessage speech; EvDisconnect]) in
  let w2 := step w1 (EvDecoded 6 (Some two_seconds)) in
  status (comp w1) = idle
  /\ audioContextRef (comp w1) = None
  /\ context_open (calls (env w1)) 0 = false
  /\ schedule (calls (env w1)) = []
  /\ isSpeaking (comp w1) = false
  /\ schedule (calls (env w2)) = [(cursor w1, duration two_seconds)]
  /\ (cursor w2 == cursor w1 + 2)%Q
  /\ isSpeaking (comp w2) = true
  /\ (volume (comp w2) == 8 # 10)%Q.
Proof. vm_compute. repeat split. Qed.

(** C10: [disconnect] does not touch the session: the promise ref, the
    promise it points to and every other promise stay as they are, no call
    closes a session or sends on one, and the cursor is kept. Of the refs
    only the processor, source and context refs change, to null, and the
    calls issued are the releases of what those three refs held. *)
Theorem C10_disconnect_keeps_the_session (w : World) :
  let w' := exec disconnect w in
  sessionPromiseRef (comp w') = sessionPromiseRef (comp w)
  /\ promises (env w') = promises (env w)
  /\ nextStartTimeRef (comp w') = nextStartTimeRef (comp w)
  /\ processorRef (comp w') = None
  /\ inputSourceRef (comp w') = None
  /\ audioContextRef (comp w') = None
  /\ calls (env w') = calls (env w) ++ release_calls (comp w)
  /\ Forall (fun c => match c with
                      | NodeDisconnect node =>
                          processorRef (comp w) = Some node
                          \/ inputSourceRef (comp w) = Some node
                      | ContextClose ctx => audioContextRef (comp w) = Some ctx
                      | _ => False
                      end) (release_calls (comp w))
  /\ sent (calls (env w')) = sent (calls (env w)).
Proof.
  intros w'. subst w'. rewrite exec_disconnect. cbn.
  repeat split; try reflexivity.
  - unfold release_calls.
    destruct (processorRef (comp w)), (inputSourceRef (comp w)),
      (audioContextRef (comp w)); cbn;
      repeat (apply Forall_cons; split; [auto|]); apply Forall_nil_2.
  - unfold sent, release_calls. rewrite flat_map_app.
    destruct (processorRef (comp w)), (inputSourceRef (comp w)),
      (audioContextRef (comp w)); cbn; rewrite app_nil_r; reflexivity.
Qed.

(** ** Outbound frames *)

Section Outbound.









End Outbound.



(** ** The PCM transport encoding *)

Section Base64.

Local Open Scope Z_scope.

Lemma sextets_ok : forallb sextet_ok (map Z.of_nat (seq 0 64)) = true.
Proof. vm_compute. reflexivity. Qed.

Lemma sextet_char (n : Z) :
  0 <= n < 64 ->
  b64_index (b64_char n) = Some n /\ Ascii.eqb (b64_char n) b64_pad = false.
Proof.
  intros Hn.
  assert (Hin : In n (map Z.of_nat (seq 0 64))).
  { apply in_map_iff. exists (Z.to_nat n). split; [lia|]. apply in_seq. lia. }
  pose proof (proj1 (forallb_forall _ _) sextets_ok n Hin) as H.
  unfold sextet_ok in H. destruct (b64_index (b64_char n)) as [m|]; [|discriminate].
  apply andb_true_iff in H as [Hm Hp]. apply Z.eqb_eq in Hm. subst m.
  split; [reflexivity|]. apply negb_true_iff, Hp.
Qed.

Lemma list_ind3 {A : Type} (P : list A -> Prop) :
  P [] -> (forall a, P [a]) -> (forall a b, P [a; b]) ->
  (forall a b c l, P l -> P (a :: b :: c :: l)) ->
  forall l, P l.
Proof.
  intros H0 H1 H2 H3.
  fix IH 1. intros [|a [|b [|c l]]];
    [exact H0 | apply H1 | apply H2 | apply H3, IH].
Qed.

Lemma b64_roundtrip (bs : list Z) :
  Forall is_byte bs -> b64_decode (b64_encode bs) = Some bs.
Proof.
  induction bs as [|a|a b|a b c l IH] using list_ind3; intros H.
  - reflexivity.
  - apply Forall_cons in H as [Ha _]. unfold is_byte in Ha.
    cbn [b64_encode b64_decode].
    destruct (sextet_char (a / 4)) as [-> _]; [Z.div_mod_to_equations; lia|].
    destruct (sextet_char (a mod 4 * 16)) as [-> _]; [Z.div_mod_to_equations; lia|].
    rewrite Ascii.eqb_refl. do 2 f_equal. Z.div_mod_to_equations; lia.
  - apply Forall_cons in H as [Ha H]. apply Forall_cons in H as [Hb _].
    unfold is_byte in Ha, Hb. cbn [b64_encode b64_decode].
    destruct (sextet_char (a / 4)) as [-> _]; [Z.div_mod_to_equations; lia|].
    destruct (sextet_char (a mod 4 * 16 + b / 16)) as [-> _];
      [Z.div_mod_to_equations; lia|].
    destruct (sextet_char (b mod 16 * 4)) as [-> ->]; [Z.div_mod_to_equations; lia|].
    rewrite Ascii.eqb_refl. do 2 f_equal; [|f_equal]; Z.div_mod_to_equations; lia.
  - apply Forall_cons in H as [Ha H]. apply Forall_cons in H as [Hb H].
    apply Forall_cons in H as [Hc H]. unfold is_byte in Ha, Hb, Hc.
    cbn [b64_encode b64_decode].
    destruct (sextet_char (a / 4)) as [-> _]; [Z.div_mod_to_equations; lia|].
    destruct (sextet_char (a mod 4 * 16 + b / 16)) as [-> _];
      [Z.div_mod_to_equations; lia|].
    destruct (sextet_char (b mod 16 * 4 + c / 64)) as [-> _];
      [Z.div_mod_to_equations; lia|].
    destruct (sextet_char (c mod 64)) as [-> ->]; [Z.div_mod_to_equations; lia|].
    rewrite (IH H). do 2 f_equal; [|f_equal; [|f_equal]]; Z.div_mod_to_equations; lia.
Qed.

End Base64.

Section Pcm.

Local Open Scope Z_scope.

Lemma quantize_int16 (x : Q) : is_int16 (quantize x).
Proof. unfold is_int16, quantize. lia. Qed.

Lemma int16_le_bytes (v : Z) : Forall is_byte (int16_le v).
Proof.
  unfold int16_le, is_byte. repeat constructor; Z.div_mod_to_equations; lia.
Qed.

Lemma le_int16_le (v : Z) :
  is_int16 v ->
  le_int16 (v mod 65536 mod 256) (v mod 65536 / 256) = v.
Proof.
  unfold is_int16, le_int16. intros Hv. cbv zeta.
  destruct (Z.leb_spec 32768 (v mod 65536 mod 256 + 256 * (v mod 65536 / 256)));
    Z.div_mod_to_equations; lia.
Qed.

Lemma pcm_bytes_are_bytes (samples : list Q) : Forall is_byte (pcm_bytes samples).
Proof.
  unfold pcm_bytes. induction samples as [|x xs IH]; [constructor|].
  cbn [flat_map]. apply Forall_app. split; [apply int16_le_bytes | exact IH].
Qed.

Lemma pcm_bytes_length (samples : list Q) :
  length (pcm_bytes samples) = (2 * length samples)%nat.
Proof.
  unfold pcm_bytes. induction samples as [|x xs IH]; [reflexivity|].
  cbn [flat_map]. rewrite length_app, IH. cbn. lia.
Qed.

Lemma decodeAudioData_pcm_bytes (samples : list Q) :
  decodeAudioData (pcm_bytes samples) = Some (map (fun x => quantize x # 32768) samples).
Proof.
  unfold pcm_bytes. induction samples as [|x xs IH]; [reflexivity|].
  cbn [flat_map int16_le app decodeAudioData map]. rewrite IH.
  rewrite le_int16_le by apply quantize_int16. reflexivity.
Qed.

Lemma quantize_error (x : Q) :
  (-1 <= x)%Q -> (x <= 1)%Q -> (Qabs ((quantize x # 32768) - x) <= 1 # 32768)%Q.
Proof.
  destruct x as [n d]. intros Hlo Hhi. unfold Qle in Hlo, Hhi. cbn in Hlo, Hhi.
  unfold quantize. cbn [Qnum Qden].
  pose proof (Z.quot_rem' (n * 32768) (Z.pos d)) as Hq.
  pose proof (Z.rem_bound_abs (n * 32768) (Z.pos d) ltac:(lia)) as Hr.
  pose proof (Z.rem_sign_mul (n * 32768) (Z.pos d) ltac:(lia)) as Hs.
  set (t := Z.quot (n * 32768) (Z.pos d)) in *.
  set (r := Z.rem (n * 32768) (Z.pos d)) in *.
  apply Qabs_Qle_condition.
  unfold Qle, Qminus, Qplus, Qopp. cbn [Qnum Qden].
  rewrite !Pos2Z.inj_mul.
  split; nia.
Qed.

End Pcm.

(** C9: for samples in [-1, 1] the PCM blob is tagged audio/pcm;rate=16000,
    its payload is the base64 text of two little-endian bytes per sample, and
    decoding the payload gives back as many samples, each within 1/32768 of
    the original; [0.0, 0.5, -0.5, 1.0, -1.0] comes back as
    [0, 0.5, -0.5, 32767/32768, -1]. *)
Theorem C9_pcm_round_trip (samples : list Q) :
  Forall (fun x => (-1 <= x)%Q /\ (x <= 1)%Q) samples ->
  let blob := createPcmBlob samples in
  mimeType blob = "audio/pcm;rate=16000"%string
  /\ decode (data blob) = Some (pcm_bytes samples)
  /\ length (pcm_bytes samples) = (2 * length samples)%nat
  /\ (exists decoded : list Q,
        roundtrip samples = Some decoded
        /\ length decoded = length samples
        /\ Forall2 (fun x y => (Qabs (y - x) <= 1 # 32768)%Q) samples decoded)
  /\ pcm_bytes [0; 1 # 2; - (1 # 2); 1; - (1)]%Q = [0; 0; 0; 64; 0; 192; 255; 127; 0; 128]%Z
  /\ roundtrip [0; 1 # 2; - (1 # 2); 1; - (1)]%Q =
       Some [0 # 32768; 16384 # 32768; -16384 # 32768; 32767 # 32768; -32768 # 32768]%Q.
Proof.
  intros H blob.
  assert (Hdec : decode (data blob) = Some (pcm_bytes samples)).
  { unfold blob, createPcmBlob, decode, encode. cbn [data].
    rewrite list_ascii_of_string_of_list_ascii.
    apply b64_roundtrip, pcm_bytes_are_bytes. }
  split; [reflexivity|]. split; [exact Hdec|]. split; [apply pcm_bytes_length|].
  split; [|split; vm_compute; reflexivity].
  exists (map (fun x => quantize x # 32768) samples). split; [|split].
  - unfold roundtrip. fold blob. rewrite Hdec. apply decodeAudioData_pcm_bytes.
  - apply length_map.
  - clear blob Hdec. induction H as [|x xs [Hlo Hhi] _ IH]; [constructor|].
    cbn [map]. constructor; [|exact IH]. apply quantize_error; assumption.
Qed.

Lemma C9_pcm_round_trip_example :
  Forall (fun x => (-1 <= x)%Q /\ (x <= 1)%Q) [0; 1 # 2; - (1 # 2); 1; - (1)]%Q
  /\ exists decoded : list Q,
       roundtrip [0; 1 # 2; - (1 # 2); 1; - (1)]%Q = Some decoded
       /\ length decoded = 5%nat
       /\ Forall2 (fun x y => (Qabs (y - x) <= 1 # 32768)%Q)
            [0; 1 # 2; - (1 # 2); 1; - (1)]%Q decoded.
Proof.
  assert (H : Forall (fun x => (-1 <= x)%Q /\ (x <= 1)%Q) [0; 1 # 2; - (1 # 2); 1; - (1)]%Q).
  { repeat constructor; vm_compute; discriminate. }
  split; [exact H|].
  exact (proj1 (proj2 (proj2 (proj2 (C9_pcm_round_trip _ H))))).
Defined.

(** * Further properties of the live session *)

Import GeminiLive LiveCriticUi.

(** ** What a step issues *)

Section StepFacts.

Lemma issued_release_calls (w w' : World) :
  audioContextRef (comp w') = None ->
  Forall (issued w w') (release_calls (comp w)).
Proof.
  intros H. unfold release_calls.
  destruct (processorRef (comp w)) eqn:Hp, (inputSourceRef (comp w)) eqn:Hs,
    (audioContextRef (comp w)) eqn:Hc; cbn;
    repeat (apply Forall_cons; split; [cbn; auto|]); apply Forall_nil_2.
Qed.

Lemma no_context_in_release_calls (c : Component) (h : Handle) (r : positive) :
  ~ In (NewAudioContext h r) (release_calls c).
Proof.
  unfold release_calls.
  destruct (processorRef c), (inputSourceRef c), (audioContextRef c); cbn;
    intuition discriminate.
Qed.

Lemma no_context_in_sends (s h : Handle) (r : positive) (rs : list Blob) :
  ~ In (NewAudioContext h r) (map (SendRealtimeInput s) rs).
Proof. induction rs as [|x rs IH]; cbn; intuition discriminate. Qed.

Lemma issued_sends (w w' : World) (s : Handle) (rs : list Blob) :
  Forall (issued w w') (map (SendRealtimeInput s) rs).
Proof. induction rs; constructor; [exact I | assumption]. Qed.

Lemma shape_nil {A : Type} (l : list A) : l = l ++ [].
Proof. symmetry. apply app_nil_r. Qed.

Lemma shape_snoc {A : Type} (l l' x y : list A) : l' = l ++ x -> l' ++ y = l ++ (x ++ y).
Proof. intros ->. symmetry. apply app_assoc. Qed.

Ltac shape := first [ apply shape_snoc; shape | apply shape_nil ].

Ltac one_context :=
  repeat match goal with
         | H : In _ (_ :: _) |- _ => destruct H as [H|H]; [try discriminate H|]
         | H : In _ [] |- _ => destruct H
         | H : In _ (release_calls _) |- _ =>
             exfalso; exact (no_context_in_release_calls _ _ _ H)
         | H : In _ (map (SendRealtimeInput _) _) |- _ =>
             exfalso; exact (no_context_in_sends _ _ _ _ H)
         end.

(** Closes a goal [StepFacts w w' added] once [w'] is an explicit world. *)
Ltac facts :=
  eexists; split;
  [ cbn -[release_calls]; shape
  | cbn; lia
  | cbn -[release_calls];
    repeat (apply Forall_cons; split;
      [cbn; solve [exact I | lia | split; [lia | auto] | auto]|]);
    first [ apply Forall_nil_2 | apply issued_release_calls; reflexivity | apply issued_sends ]
  | cbn -[release_calls In]; intros ?h ?h' ?r ?r' H1 H2; one_context; split; congruence
  | cbn -[release_calls]; intros ?c Hc; try discriminate Hc; auto;
    try (injection Hc as <-; right; cbn; auto) ].

Lemma step_facts (w : World) (e : Event) : exists added, StepFacts w (step w e) added.
Proof.
  destruct e as [ok|outcome|p session| |blob|d result|timer| | | |node chunk|ctx n];
    unfold step, handle.
  - destruct ok; unfold exec; cbn; facts.
  - unfold exec, bind. destruct (mediaRequests (env w)); [facts|].
    destruct outcome as [|[[| | |]|]]; facts.
  - unfold exec, settle. destruct (promises (env w) !! p) as [[rs|s|]|]; try facts.
    destruct session; facts.
  - unfold exec; cbv beta. destruct (connected (calls (env w))); facts.
  - unfold exec; cbv beta. destruct (connected (calls (env w))); [|facts].
    unfold when, onMessage_begin, bind, read.
    destruct (audioContextRef (comp w)) eqn:H; cbn; rewrite ?H; facts.
  - unfold exec, onMessage_resume.
    destruct (decodes (env w) !! d) as [[ctx blob]|]; [|facts].
    destruct result; facts.
  - unfold exec. destruct (decide (timer ∈ timers (env w))); facts.
  - unfold exec; cbv beta. destruct (connected (calls (env w))); [|facts].
    unfold when, onError, bind. cbn. rewrite disconnect_spec. facts.
  - unfold exec; cbv beta. destruct (connected (calls (env w))); [|facts].
    unfold when, onClose, bind. cbn. rewrite disconnect_spec. facts.
  - rewrite exec_disconnect. facts.
  - unfold exec; cbv beta. destruct (has_handler node (calls (env w))); [|facts].
    unfold when, onaudioprocess, bind, read.
    destruct (sessionPromiseRef (comp w)) as [p|]; [|facts].
    unfold promise_then. destruct (promises (env w) !! p) as [[rs|s|]|]; facts.
  - unfold exec. facts.
Qed.

End StepFacts.

(** ** Invariants of whole runs *)

Section Runs.

Lemma in_app_cases {A : Type} (x : A) (l l' : list A) : In x (l ++ l') -> In x l \/ In x l'.
Proof. apply in_app_or. Qed.

Lemma issued_in (w w' : World) (added : list Call) (c : Call) :
  Forall (issued w w') added -> In c added -> issued w w' c.
Proof. intros H Hin. rewrite Forall_forall in H. apply H, list_elem_of_In, Hin. Qed.

Lemma Sound_step (w : World) (e : Event) : Sound w -> Sound (step w e).
Proof.
  intros [Hctx Hstr Hrate Hnever Href Hclosed].
  destruct (step_facts w e) as [added [Hcalls Hfresh Hissued Hone Hnew]].
  pose proof (fun c => issued_in _ _ _ c Hissued) as Hi.
  split; rewrite ?Hcalls.
  - intros h r Hin. apply in_app_or in Hin as [Hin|Hin].
    + specialize (Hctx h r Hin). lia.
    + specialize (Hi _ Hin). cbn in Hi. lia.
  - intros s Hin. apply in_app_or in Hin as [Hin|Hin].
    + specialize (Hstr s Hin). lia.
    + specialize (Hi _ Hin). cbn in Hi. lia.
  - intros h r r' H1 H2.
    apply in_app_or in H1 as [H1|H1]; apply in_app_or in H2 as [H2|H2].
    + eauto.
    + specialize (Hctx h r H1). specialize (Hi _ H2). cbn in Hi. lia.
    + specialize (Hctx h r' H2). specialize (Hi _ H1). cbn in Hi. lia.
    + apply (Hone h h r r' H1 H2).
  - apply Forall_app. split; [exact Hnever|].
    apply Forall_forall. intros c Hin. apply list_elem_of_In in Hin.
    specialize (Hi _ Hin). destruct c; try exact I; exact Hi.
  - intros c Hc.
    assert (Hnot : ~ In (ContextClose c) added).
    { intros Hin. specialize (Hi _ Hin). cbn in Hi. destruct Hi as [_ Hn]. congruence. }
    destruct (Hnew c Hc) as [Hold|Hin].
    + destruct (Href c Hold) as [H1 H2]. split; [apply in_or_app; auto|].
      intros Hin. apply in_app_or in Hin as [Hin|Hin]; auto.
    + split; [apply in_or_app; auto|].
      intros Hin'. apply in_app_or in Hin' as [Hin'|Hin']; auto.
      specialize (Hctx c _ (Hclosed c Hin')). specialize (Hi _ Hin). cbn in Hi. lia.
  - intros h Hin. apply in_or_app. apply in_app_or in Hin as [Hin|Hin].
    + left. auto.
    + specialize (Hi _ Hin). cbn in Hi. destruct Hi as [Hr _].
      left. apply (Href h Hr).
Qed.

Lemma Sound_run (es : list Event) (w : World) : Sound w -> Sound (run w es).
Proof.
  revert w. induction es as [|e es IH]; intros w H; [exact H|].
  apply IH, Sound_step, H.
Qed.

Lemma Sound_mounted : Sound mounted.
Proof. split; cbn; try constructor; intros; try contradiction; discriminate. Qed.

Lemma run_extends (es : list Event) (w : World) :
  exists more, calls (env (run w es)) = calls (env w) ++ more.
Proof.
  revert w. induction es as [|e es IH]; intros w.
  - exists []. cbn. symmetry. apply app_nil_r.
  - destruct (step_facts w e) as [added [Hcalls _ _ _ _]].
    destruct (IH (step w e)) as [more Hmore].
    exists (added ++ more). change (run w (e :: es)) with (run (step w e) es).
    rewrite Hmore, Hcalls, app_assoc. reflexivity.
Qed.

Lemma Orphan_step (c : Handle) (w : World) (e : Event) : Orphan c w -> Orphan c (step w e).
Proof.
  intros [Hold Href Hopen].
  destruct (step_facts w e) as [added [Hcalls Hfresh Hissued Hone Hnew]].
  pose proof (fun c => issued_in _ _ _ c Hissued) as Hi.
  split.
  - lia.
  - intros Hc. destruct (Hnew c Hc) as [H|H]; [auto|].
    specialize (Hi _ H). cbn in Hi. lia.
  - rewrite Hcalls. intros Hin. apply in_app_or in Hin as [Hin|Hin]; [auto|].
    specialize (Hi _ Hin). cbn in Hi. destruct Hi as [Hr _]. auto.
Qed.

Lemma Orphan_run (c : Handle) (es : list Event) (w : World) : Orphan c w -> Orphan c (run w es).
Proof.
  revert w. induction es as [|e es IH]; intros w H; [exact H|].
  apply IH, Orphan_step, H.
Qed.

Lemma stream_open_intro (log : list Call) (s : Handle) :
  In (MediaStreamGranted s) log ->
  Forall (fun c => match c with
                   | TrackStop _ | SessionClose _ => False
                   | _ => True
                   end) log ->
  stream_open log s = true.
Proof.
  intros Hin Hnever. unfold stream_open. apply andb_true_iff. split.
  - apply existsb_exists. exists (MediaStreamGranted s). split; [exact Hin|].
    apply Nat.eqb_refl.
  - apply negb_true_iff. apply not_true_is_false. intros H.
    apply existsb_exists in H as [c [Hc Hm]].
    rewrite Forall_forall in Hnever. specialize (Hnever c (proj2 (list_elem_of_In _ _) Hc)).
    destruct c; try discriminate Hm. exact Hnever.
Qed.

Lemma context_open_intro (log : list Call) (h : Handle) (r : positive) :
  In (NewAudioContext h r) log -> ~ In (ContextClose h) log -> context_open log h = true.
Proof.
  intros Hin Hnot. unfold context_open. apply andb_true_iff. split.
  - apply existsb_exists. exists (NewAudioContext h r). split; [exact Hin|].
    apply Nat.eqb_refl.
  - apply negb_true_iff. apply not_true_is_false. intros H.
    apply existsb_exists in H as [c [Hc Hm]].
    destruct c; try discriminate Hm. apply Nat.eqb_eq in Hm. subst. auto.
Qed.

End Runs.

(** X1: in no run does the component stop a track of a microphone stream or
    close a session: every stream that [getUserMedia] granted is open at the
    end of the run, whatever happened since. *)
Theorem granted_streams_stay_open (es : list Event) (s : Handle) :
  let w := run mounted es in
  Forall (fun c => match c with
                   | TrackStop _ | SessionClose _ => False
                   | _ => True
                   end) (calls (env w))
  /\ (In (MediaStreamGranted s) (calls (env w)) -> stream_open (calls (env w)) s = true).
Proof.
  intros w. destruct (Sound_run es mounted Sound_mounted) as [_ _ _ Hnever _ _].
  fold w in Hnever. split; [exact Hnever|].
  intros Hin. apply stream_open_intro; assumption.
Qed.

Lemma granted_streams_stay_open_after_teardown :
  let es := go_live ++ [EvDisconnect; EvClose; EvError] in
  In (MediaStreamGranted 1) (calls (env (run mounted es)))
  /\ stream_open (calls (env (run mounted es))) 1 = true.
Proof.
  intros es.
  assert (Hin : In (MediaStreamGranted 1) (calls (env (run mounted es)))).
  { vm_compute. auto. }
  split; [exact Hin|].
  exact (proj2 (granted_streams_stay_open es 1%nat) Hin).
Defined.

(** X2: the 16 kHz input context that [startSession] creates is closed in no
    run: the only contexts the component closes are 24 kHz output contexts
    it holds in [audioContextRef]. *)
Theorem input_contexts_stay_open (es : list Event) (h : Handle) :
  let w := run mounted es in
  (forall c, In (ContextClose c) (calls (env w)) -> In (NewAudioContext c 24000) (calls (env w)))
  /\ (In (NewAudioContext h 16000) (calls (env w)) -> context_open (calls (env w)) h = true).
Proof.
  intros w. destruct (Sound_run es mounted Sound_mounted) as [_ _ Hrate _ _ Hclosed].
  fold w in Hrate, Hclosed. split; [exact Hclosed|].
  intros Hin. apply (context_open_intro _ h 16000 Hin).
  intros Hc. specialize (Hrate h _ _ Hin (Hclosed h Hc)). discriminate Hrate.
Qed.

Lemma input_contexts_stay_open_after_teardown :
  let es := go_live ++ [EvDisconnect; EvClose; EvError] in
  In (NewAudioContext 2 16000) (calls (env (run mounted es)))
  /\ context_open (calls (env (run mounted es))) 2 = true.
Proof.
  intros es.
  assert (Hin : In (NewAudioContext 2 16000) (calls (env (run mounted es)))).
  { vm_compute. auto. }
  split; [exact Hin|].
  exact (proj2 (input_contexts_stay_open es 2%nat) Hin).
Defined.

(** X3: a click on the main button while the component is inactive (still
    connecting, or in [error] after a failed set-up) starts a session without
    closing the output context left in [audioContextRef]: the ref moves to a
    new context and the old one is closed by nothing that follows. *)
Theorem restart_orphans_the_output_context (es es' : list Event) (c : Handle) :
  let w := run mounted es in
  active (comp w) = false ->
  audioContextRef (comp w) = Some c ->
  let w1 := exec (onClick true) w in
  audioContextRef (comp w1) = Some (fresh (env w))
  /\ c <> fresh (env w)
  /\ context_open (calls (env (run w1 es'))) c = true.
Proof.
  intros w Hact Href w1.
  destruct (Sound_run es mounted Sound_mounted) as [Hctx _ _ _ Hr _].
  fold w in Hctx, Hr. destruct (Hr c Href) as [Hin Hopen].
  pose proof (Hctx c _ Hin) as Hlt.
  assert (E : w1 = exec (startSession_begin true) w).
  { unfold w1, onClick, exec. rewrite Hact. reflexivity. }
  assert (Ho : Orphan c w1).
  { rewrite E. split; cbn.
    - lia.
    - intros H. injection H as H. lia.
    - intros H. repeat (apply in_app_or in H as [H|H]); auto;
        cbn in H; intuition discriminate. }
  split; [rewrite E; reflexivity|]. split; [lia|].
  destruct (Orphan_run c es' w1 Ho) as [_ _ Hopen'].
  apply (context_open_intro _ c 24000); [|exact Hopen'].
  destruct (run_extends es' w1) as [more ->]. apply in_or_app. left.
  rewrite E. cbn. apply in_or_app. left. apply in_or_app. left. exact Hin.
Qed.

Lemma restart_after_denied_microphone :
  let es := [EvStartSession true; EvUserMedia Denied] in
  let es' := [EvUserMedia (Granted None); EvSettle 6 (Some 100%nat); EvOpen; EvDisconnect] in
  let w := run mounted es in
  active (comp w) = false
  /\ audioContextRef (comp w) = Some 0%nat
  /\ context_open (calls (env (run (exec (onClick true) w) es'))) 0 = true.
Proof.
  intros es es' w.
  assert (Ha : active (comp w) = false) by (vm_compute; reflexivity).
  assert (Hr : audioContextRef (comp w) = Some 0%nat) by (vm_compute; reflexivity).
  split; [exact Ha|]. split; [exact Hr|].
  exact (proj2 (proj2 (restart_orphans_the_output_context es es' 0%nat Ha Hr))).
Defined.

Section Cursor2.

Lemma cursor_nonneg (es : list Event) : (0 <= cursor (run mounted es))%Q.
Proof. apply (run_cursor_mono es mounted). Qed.

End Cursor2.

(** X4: the playback cursor outlives the session. After a disconnect and a
    new [startSession] the output context is a new one whose clock is at 0,
    while [nextStartTimeRef] still holds the cursor of the old session: the
    first buffer of the new session is started at the old cursor, that is
    that many seconds late. *)
Theorem cursor_is_carried_into_the_next_session (es : list Event) (blob : Blob)
    (buf : AudioBuffer) :
  let w := run mounted es in
  let w' := run w [EvDisconnect; EvStartSession true; EvUserMedia (Granted None)] in
  audioContextRef (comp w') = Some (fresh (env w))
  /\ (clock w' (fresh (env w)) == 0)%Q
  /\ cursor w' = cursor w
  /\ schedule (calls (env (handle_blob blob [] (Some buf) w'))) =
       schedule (calls (env w)) ++ [(cursor w, duration buf)].
Proof.
  intros w w'.
  assert (Href : audioContextRef (comp w') = Some (fresh (env w))).
  { unfold w', run, fold_left, step at 1 2, handle. unfold step, handle.
    rewrite exec_disconnect. reflexivity. }
  assert (Hclock : clock w' (fresh (env w)) = (0 # 24000)%Q).
  { unfold w', run, fold_left, step at 1 2, handle. unfold step, handle.
    rewrite exec_disconnect. unfold clock. cbn.
    rewrite lookup_insert_ne by lia. rewrite lookup_insert_eq. reflexivity. }
  assert (Hcur : cursor w' = cursor w).
  { unfold w', run, fold_left, step at 1 2, handle. unfold step, handle.
    rewrite exec_disconnect. reflexivity. }
  assert (Hsch : schedule (calls (env w')) = schedule (calls (env w))).
  { unfold w', run, fold_left, step at 1 2, handle. unfold step, handle.
    rewrite exec_disconnect. cbn -[release_calls].
    rewrite !schedule_app, schedule_release_calls. cbn. rewrite !app_nil_r. reflexivity. }
  split; [exact Href|]. split; [rewrite Hclock; reflexivity|]. split; [exact Hcur|].
  destruct (handle_blob_decoded w' _ blob [] buf Href) as [_ Hl].
  rewrite Hl, schedule_app, Hsch, Hclock, Hcur. cbn. do 3 f_equal.
  apply Qmax_left. apply Qle_trans with 0%Q; [|apply (cursor_nonneg es)].
  unfold Qle. cbn. lia.
Qed.

(** X5: the [onError] callback leaves the bridge in status [idle], not
    [error]: it sets [error] and then calls [disconnect], which sets [idle];
    the error is logged and what the refs hold is released. *)
Theorem transport_error_ends_idle (w : World) :
  let w' := exec onError w in
  status (comp w') = idle
  /\ active (comp w') = false
  /\ audioContextRef (comp w') = None
  /\ inputSourceRef (comp w') = None
  /\ processorRef (comp w') = None
  /\ calls (env w') =
       calls (env w) ++ ConsoleError "live session error" :: release_calls (comp w)
  /\ exec onClose w =
       mkWorld (comp w') (set_calls (calls (env w) ++ release_calls (comp w)) (env w)).
Proof.
  intros w'. subst w'. unfold onError, onClose, exec, bind. cbn.
  rewrite !disconnect_spec. cbn -[release_calls].
  rewrite <- app_assoc. repeat split.
Qed.

(** X6: once [disconnect] has run, inbound blobs are ignored: any number of
    messages leaves the world exactly as [disconnect] left it, and so does a
    message before any session was started. *)
Theorem messages_after_teardown_are_ignored (w : World) (blobs : list Blob) :
  run (exec disconnect w) (map EvMessage blobs) = exec disconnect w
  /\ run mounted (map EvMessage blobs) = mounted.
Proof.
  assert (H : forall v, audioContextRef (comp v) = None ->
                        run v (map EvMessage blobs) = v).
  { induction blobs as [|b bs IH]; intros v Hv; [reflexivity|].
    cbn [map]. change (run v (EvMessage b :: map EvMessage bs))
      with (run (step v (EvMessage b)) (map EvMessage bs)).
    assert (E : step v (EvMessage b) = v).
    { unfold step, handle, exec. cbv beta.
      destruct (connected (calls (env v))); cbn;
        [unfold onMessage_begin, bind, read; rewrite Hv|];
        destruct v; reflexivity. }
    rewrite E. apply IH, Hv. }
  split; apply H; [rewrite exec_disconnect|]; reflexivity.
Qed.

(** X7: in every run, whenever the status is [live] the component is active
    (the main button is the disconnect button). *)
Theorem live_implies_active (es : list Event) :
  let w := run mounted es in
  status (comp w) = live -> active (comp w) = true.
Proof.
  intros w. subst w.
  assert (H : forall v, (status (comp v) = live -> active (comp v) = true) ->
                        status (comp (run v es)) = live -> active (comp (run v es)) = true).
  { induction es as [|e es IH]; intros v Hv; [exact Hv|].
    change (run v (e :: es)) with (run (step v e) es). apply IH.
    destruct e as [ok|outcome|p session| |blob|d result|timer| | | |node chunk|ctx n];
      unfold step, handle.
    - destruct ok; cbn; discriminate.
    - unfold exec, bind. destruct (mediaRequests (env v)); [exact Hv|].
      destruct outcome as [|[[| | |]|]]; cbn; try discriminate; exact Hv.
    - unfold exec, settle. destruct (promises (env v) !! p) as [[rs|s|]|]; try exact Hv.
      destruct session; exact Hv.
    - unfold exec; cbv beta. destruct (connected (calls (env v))); [reflexivity | exact Hv].
    - unfold exec; cbv beta. destruct (connected (calls (env v))); [|exact Hv].
      unfold when, onMessage_begin, bind, read.
      destruct (audioContextRef (comp v)); exact Hv.
    - unfold exec, onMessage_resume.
      destruct (decodes (env v) !! d) as [[ctx blob]|]; [|exact Hv].
      destruct result; exact Hv.
    - unfold exec. destruct (decide (timer ∈ timers (env v))); exact Hv.
    - unfold exec; cbv beta. destruct (connected (calls (env v))); [|exact Hv].
      unfold when, onError, bind. cbn. rewrite disconnect_spec. discriminate.
    - unfold exec; cbv beta. destruct (connected (calls (env v))); [|exact Hv].
      unfold when, onClose, bind. cbn. rewrite disconnect_spec. discriminate.
    - rewrite exec_disconnect. discriminate.
    - unfold exec; cbv beta. destruct (has_handler node (calls (env v))); [|exact Hv].
      unfold when, onaudioprocess, bind, read.
      destruct (sessionPromiseRef (comp v)) as [p|]; [|exact Hv].
      unfold promise_then. destruct (promises (env v) !! p) as [[rs|s|]|]; exact Hv.
    - exact Hv. }
  apply H. discriminate.
Qed.

Lemma live_implies_active_when_live :
  status (comp (run mounted go_live)) = live /\ active (comp (run mounted go_live)) = true.
Proof.
  assert (H : status (comp (run mounted go_live)) = live) by (vm_compute; reflexivity).
  split; [exact H|]. exact (live_implies_active go_live H).
Defined.

(** X8: [onOpen] does not look at the refs. When the open callback of a
    session arrives after [disconnect] (which leaves the session itself
    alone), the component shows [live] and active with no processor, source
    or output context, and it ignores every inbound blob. *)
Theorem open_after_disconnect_shows_live (w : World) (blob : Blob) :
  let w' := exec onOpen (exec disconnect w) in
  status (comp w') = live
  /\ active (comp w') = true
  /\ audioContextRef (comp w') = None
  /\ inputSourceRef (comp w') = None
  /\ processorRef (comp w') = None
  /\ calls (env w') = calls (env w) ++ release_calls (comp w)
  /\ exec (onMessage_begin blob) w' = w'.
Proof.
  intros w'. subst w'. rewrite exec_disconnect. cbn -[release_calls].
  repeat split.
Qed.

(** X9: of a server message only the inline audio of its first part reaches
    the component. A message whose first part has none is dropped, whatever
    its other parts and its transcription hold, and two messages with the
    same audio in their first part leave the same world. *)
Theorem only_first_part_audio_is_played (m : LiveServerMessage) (w : World) :
  (forall (p : Part) (rest : list Part) (tr : option Transcription),
      inlineData p = None ->
      exec (deliver (mkMessage (Some (mkServerContent
              (Some (mkModelTurn (Some (p :: rest)))) tr)))) w = w)
  /\ (firstPart m = None -> exec (deliver m) w = w)
  /\ (forall (m' : LiveServerMessage) (p p' : Part),
         firstPart m = Some p -> firstPart m' = Some p' ->
         inlineData p = inlineData p' ->
         exec (deliver m) w = exec (deliver m') w).
Proof.
  split; [|split].
  - intros p rest tr Hp. unfold deliver, onmessage. cbn. rewrite Hp.
    destruct w; reflexivity.
  - intros H. unfold deliver, onmessage. rewrite H. destruct w; reflexivity.
  - intros m' p p' H H' E. unfold deliver, onmessage. rewrite H, H', E.
    destruct (inlineData p'); reflexivity.
Qed.

Lemma only_first_part_audio_is_played_example :
  let quiet_part := mkPart None (Some "hello"%string) in
  let loud_part := mkPart (Some speech) None in
  let w := run mounted go_live in
  exec (deliver (mkMessage (Some (mkServerContent
          (Some (mkModelTurn (Some [quiet_part; loud_part]))) None)))) w = w.
Proof.
  intros quiet_part loud_part w.
  exact (proj1 (only_first_part_audio_is_played (mkMessage None) w)
           quiet_part [loud_part] None eq_refl).
Defined.

(** * The image editor and its button *)

Import Js GeminiImage ImageEditor.

Section Strings.

Lemma trimStart_nil (s : JsString) : trimStart s = [] <-> forallb is_white_space s = true.
Proof.
  induction s as [|c s IH]; cbn; [tauto|].
  destruct (is_white_space c); cbn; [exact IH|].
  split; discriminate.
Qed.

Lemma trimStart_suffix (s : JsString) : exists ws, s = ws ++ trimStart s
  /\ forallb is_white_space ws = true.
Proof.
  induction s as [|c s [ws [E H]]]; [exists []; split; reflexivity|].
  cbn. destruct (is_white_space c) eqn:Hc.
  - exists (c :: ws). cbn. rewrite Hc, H. split; [f_equal; exact E | reflexivity].
  - exists []. split; reflexivity.
Qed.

Lemma forallb_rev {A : Type} (f : A -> bool) (l : list A) : forallb f (rev l) = forallb f l.
Proof.
  induction l as [|a l IH]; [reflexivity|].
  cbn. rewrite forallb_app, IH. cbn. rewrite andb_true_r. apply andb_comm.
Qed.

Lemma trim_nil (s : JsString) : trim s = [] <-> forallb is_white_space s = true.
Proof.
  unfold trim, trimEnd. split.
  - intros H. apply (f_equal (@rev N)) in H. rewrite rev_involutive in H. cbn in H.
    apply trimStart_nil in H. rewrite forallb_rev in H.
    destruct (trimStart_suffix s) as [ws [E Hws]]. rewrite E, forallb_app, Hws, H.
    reflexivity.
  - intros H. apply trimStart_nil in H. rewrite H. reflexivity.
Qed.

Lemma truthy_trim (s : JsString) : truthy (trim s) = negb (forallb is_white_space s).
Proof.
  destruct (forallb is_white_space s) eqn:H.
  - apply trim_nil in H. rewrite H. reflexivity.
  - destruct (trim s) eqn:E; [|reflexivity].
    apply trim_nil in E. congruence.
Qed.

Lemma split_plain (sep : N) (s : JsString) : ~ In sep s -> split sep s = [s].
Proof.
  induction s as [|c s IH]; intros H; [reflexivity|].
  cbn. destruct (N.eqb_spec c sep) as [->|Hne]; [exfalso; apply H; left; reflexivity|].
  rewrite IH; [reflexivity|]. intros Hin. apply H. right. exact Hin.
Qed.

Lemma split_app (sep : N) (s s' : JsString) :
  ~ In sep s -> split sep (s ++ sep :: s') = s :: split sep s'.
Proof.
  induction s as [|c s IH]; intros H.
  - cbn. rewrite N.eqb_refl. reflexivity.
  - cbn. destruct (N.eqb_spec c sep) as [->|Hne]; [exfalso; apply H; left; reflexivity|].
    rewrite IH; [reflexivity|]. intros Hin. apply H. right. exact Hin.
Qed.

Lemma split_data_url (header payload : JsString) :
  ~ In comma header -> ~ In comma payload ->
  nth_error (split comma (header ++ comma :: payload)) 1 = Some payload.
Proof.
  intros Hh Hp. rewrite split_app by exact Hh. rewrite split_plain by exact Hp. reflexivity.
Qed.

Lemma handleEdit_begin_sends (e : Editor) :
  forallb is_white_space (prompt e) = false ->
  handleEdit_begin e =
    mkEditor (prompt e) true (initialImage e)
      (requests e ++ [request (nth_error (split comma (initialImage e)) 1) (prompt e)])
      (alerts e).
Proof. intros H. unfold handleEdit_begin. rewrite truthy_trim, H. reflexivity. Qed.

End Strings.

(** X10: in [Button] a [disabled] attribute passed by the caller replaces
    the computed [isLoading || props.disabled], because [{...props}] comes
    after it: the button is then disabled exactly when that attribute is
    true, whether it is loading or not. Only without such an attribute does
    [isLoading] disable the button. The label is "Processing..." exactly when
    [isLoading] is true. *)
Theorem disabled_attribute_overrides_loading {Children : Type}
    (p : Button.ButtonProps Children) :
  (forall v, Button.disabled p = Some v ->
             Button.r_disabled (Button.render p) = Button.is_true v)
  /\ (Button.disabled p = None ->
      Button.r_disabled (Button.render p) = Button.is_true (Button.isLoading p))
  /\ Button.r_label (Button.render p) =
       (if Button.is_true (Button.isLoading p) then Button.Processing
        else Button.Shown (Button.children p)).
Proof.
  unfold Button.render. cbn. split; [|split].
  - intros v ->. reflexivity.
  - intros ->. destruct (Button.is_true (Button.isLoading p)); reflexivity.
  - reflexivity.
Qed.

Lemma disabled_attribute_overrides_loading_example :
  let p := Button.mkProps tt None (Some true) None (Some (Some false)) in
  Button.disabled p = Some (Some false)
  /\ Button.r_disabled (Button.render p) = false
  /\ Button.r_label (Button.render p) = Button.Processing.
Proof.
  intros p. split; [reflexivity|]. split.
  - exact (proj1 (disabled_attribute_overrides_loading p) (Some false) eq_refl).
  - exact (proj2 (proj2 (disabled_attribute_overrides_loading p))).
Defined.

(** X11: [handleEdit] does nothing for a prompt that is empty or all white
    space, and for every other prompt it makes one request to [editImage]
    with the prompt as typed and sets [loading]. *)
Theorem blank_prompt_is_not_sent (e : Editor) :
  (forallb is_white_space (prompt e) = true -> handleEdit_begin e = e)
  /\ (forallb is_white_space (prompt e) = false ->
      exists raw,
        handleEdit_begin e =
          mkEditor (prompt e) true (initialImage e)
            (requests e ++ [request raw (prompt e)]) (alerts e)).
Proof.
  unfold handleEdit_begin. rewrite truthy_trim. split; intros ->; cbn.
  - reflexivity.
  - eexists. reflexivity.
Qed.

Lemma blank_prompt_is_not_sent_example :
  let e := mkEditor (lit "  ") false (lit "data:image/png;base64,AAAA") [] [] in
  forallb is_white_space (prompt e) = true /\ handleEdit_begin e = e.
Proof.
  intros e. split; [reflexivity|].
  exact (proj1 (blank_prompt_is_not_sent e) eq_refl).
Defined.

(** X12: the data URL that a successful edit stores is read back by the next
    edit: when the cover image is [header,payload] with no comma inside
    either, [handleEdit] sends exactly the payload, and after an edit that
    returned the comma-free base64 [raw] the next edit sends [raw]. *)
Theorem edits_compose (e : Editor) :
  (forall header payload : JsString,
      initialImage e = header ++ comma :: payload ->
      ~ In comma header -> ~ In comma payload ->
      forallb is_white_space (prompt e) = false ->
      requests (handleEdit_begin e) = requests e ++ [request (Some payload) (prompt e)])
  /\ (forall raw next : JsString,
         ~ In comma raw ->
         forallb is_white_space next = false ->
         requests (handleEdit_begin (onChange next (handleEdit_resume (Returned (Some raw)) e))) =
           requests e ++ [request (Some raw) next]).
Proof.
  assert (H : forall (x : Editor) header payload,
             initialImage x = header ++ comma :: payload ->
             ~ In comma header -> ~ In comma payload ->
             forallb is_white_space (prompt x) = false ->
             requests (handleEdit_begin x) = requests x ++ [request (Some payload) (prompt x)]).
  { intros x header payload Hi Hh Hp Hw. unfold handleEdit_begin.
    rewrite truthy_trim, Hw, Hi, split_data_url by assumption. reflexivity. }
  split; [exact (H e)|].
  intros raw next Hraw Hnext.
  apply (H (onChange next (handleEdit_resume (Returned (Some raw)) e))
           (lit "data:image/png;base64") raw); try assumption.
  - reflexivity.
  - vm_compute. intuition discriminate.
Qed.

Lemma edits_compose_example :
  let e := mkEditor (lit "add a cat") false (lit "data:image/jpeg;base64,/9j/4AAQ") [] [] in
  requests (handleEdit_begin e) = [request (Some (lit "/9j/4AAQ")) (lit "add a cat")].
Proof.
  intros e.
  assert (Hh : ~ In comma (lit "data:image/jpeg;base64")).
  { vm_compute. intuition discriminate. }
  assert (Hp : ~ In comma (lit "/9j/4AAQ")).
  { vm_compute. intuition discriminate. }
  exact (proj1 (edits_compose e) (lit "data:image/jpeg;base64") (lit "/9j/4AAQ")
           eq_refl Hh Hp eq_refl).
Defined.

Section FirstImage.

Lemma firstImage_find (parts : list Part) :
  firstImage parts =
  match find (fun p => bool_decide (is_Some (inlineData p))) parts with
  | Some p => Returned (from_option data None (inlineData p))
  | None => Threw "No image generated"
  end.
Proof.
  induction parts as [|p parts IH]; [reflexivity|].
  cbn. destruct (inlineData p) as [inline|] eqn:E; cbn; [rewrite E; reflexivity | exact IH].
Qed.

End FirstImage.

(** X13: what an edit does to the editor, from the answer of
    [generateContent] on. [loading] is cleared in every case. If some part of
    the first candidate has inline data, the image becomes the PNG data URL
    of the data of the first such part (the text "undefined" when that part
    has no data) and the prompt is cleared. Otherwise (no such part, no
    parts, or a rejected call) the image and the prompt stay and one alert
    is shown. *)
Theorem edit_takes_the_first_inline_part
    (response : Outcome (option (list Part))) (e : Editor) :
  let e' := handleEdit_resume (editImage response) e in
  loading e' = false
  /\ requests e' = requests e
  /\ match response with
     | Returned (Some parts) =>
         match find (fun p => bool_decide (is_Some (inlineData p))) parts with
         | Some p =>
             initialImage e' =
               PNG_PREFIX ++ interpolate (from_option data None (inlineData p))
             /\ prompt e' = [] /\ alerts e' = alerts e
         | None =>
             initialImage e' = initialImage e /\ prompt e' = prompt e
             /\ alerts e' = alerts e ++ ["Failed to edit image"%string]
         end
     | _ =>
         initialImage e' = initialImage e /\ prompt e' = prompt e
         /\ alerts e' = alerts e ++ ["Failed to edit image"%string]
     end.
Proof.
  intros e'. subst e'.
  destruct response as [[parts|]|msg]; cbn -[PNG_PREFIX];
    try (repeat split; reflexivity).
  rewrite firstImage_find.
  destruct (find (fun p => bool_decide (is_Some (inlineData p))) parts);
    cbn -[PNG_PREFIX]; repeat split; reflexivity.
Qed.

(** X14: nothing keeps [handleEdit] from running twice. While an edit is in
    flight and the prompt is not empty, the Go button shows "Processing..."
    but is not disabled (its [disabled={!prompt}] wins over [isLoading]), and
    a second [handleEdit], by click or by Enter, sends a second request for
    the same image. *)
Theorem edit_in_flight_can_be_repeated (e : Editor) :
  loading e = true ->
  forallb is_white_space (prompt e) = false ->
  Button.r_disabled (Button.render (goButton e)) = false
  /\ Button.r_label (Button.render (goButton e)) = Button.Processing
  /\ onKeyDown "Enter" e = handleEdit_begin e
  /\ exists raw,
       requests (handleEdit_begin (handleEdit_begin e)) =
         requests e ++ [request raw (prompt e); request raw (prompt e)].
Proof.
  intros Hl Hw.
  assert (Hp : truthy (prompt e) = true).
  { destruct (prompt e); [discriminate Hw | reflexivity]. }
  split; [cbn; rewrite Hp; reflexivity|].
  split; [cbn; rewrite Hl; reflexivity|].
  split; [reflexivity|].
  exists (nth_error (split comma (initialImage e)) 1).
  rewrite (handleEdit_begin_sends e Hw).
  rewrite handleEdit_begin_sends by exact Hw.
  cbn [requests prompt initialImage]. rewrite <- app_assoc. reflexivity.
Qed.

Lemma edit_in_flight_can_be_repeated_example :
  let e := mkEditor (lit "add a cat") true (lit "data:image/png;base64,AAAA") [] [] in
  loading e = true
  /\ forallb is_white_space (prompt e) = false
  /\ Button.r_disabled (Button.render (goButton e)) = false.
Proof.
  intros e. split; [reflexivity|]. split; [reflexivity|].
  exact (proj1 (edit_in_flight_can_be_repeated e eq_refl eq_refl)).
Defined.

(** * The post creator and the list of posts *)

Import Blog PostCreator.

Section Tags.

Lemma includes_spec (tag : JsString) (l : list JsString) :
  includes tag l = true <-> tag ∈ l.
Proof. unfold includes. apply bool_decide_eq_true. Qed.

Lemma filter_absent (t : JsString) (l : list JsString) :
  t ∉ l -> filter (fun tag => tag <> t) l = l.
Proof.
  induction l as [|a l IH]; intros H; [reflexivity|].
  rewrite filter_cons. destruct (decide (a <> t)) as [Hne|He].
  - f_equal. apply IH. intros Hin. apply H. right. exact Hin.
  - exfalso. apply H. destruct (decide (a = t)) as [->|]; [left | contradiction].
Qed.

End Tags.

(** X15: [handleAddTag] keeps the tags free of duplicates and of blank tags:
    it appends the trimmed input, and clears the input, only when the trimmed
    input is not empty and not yet a tag; otherwise it changes nothing. *)
Theorem add_tag_keeps_tags_distinct (c : Creator) :
  let c' := handleAddTag c in
  (NoDup (tags c) -> NoDup (tags c'))
  /\ (tags c' = tags c \/
      (tags c' = tags c ++ [trim (tagInput c)]
       /\ trim (tagInput c) <> [] /\ (trim (tagInput c) ∉ tags c) /\ tagInput c' = []))
  /\ (forallb is_white_space (tagInput c) = true \/ trim (tagInput c) ∈ tags c -> c' = c).
Proof.
  intros c'. subst c'. unfold handleAddTag.
  destruct (truthy (trim (tagInput c))) eqn:Ht;
    destruct (includes (trim (tagInput c)) (tags c)) eqn:Hi; cbn.
  - split; [auto|]. split; [auto|]. auto.
  - assert (Hn : trim (tagInput c) ∉ tags c).
    { intros H. apply includes_spec in H. congruence. }
    split; [|split].
    + intros Hd. apply NoDup_app. split; [exact Hd|]. split.
      * intros x Hx Hx'. apply list_elem_of_singleton in Hx'. subst. auto.
      * apply NoDup_singleton.
    + right. repeat split; auto. intros E. rewrite E in Ht. discriminate.
    + intros [Hw|Hin]; [|contradiction].
      rewrite truthy_trim, Hw in Ht. discriminate.
  - split; [auto|]. split; [auto|]. auto.
  - split; [auto|]. split; [auto|]. auto.
Qed.

Lemma add_tag_keeps_tags_distinct_example :
  let c := setTagInput (lit " Music ") initial in
  NoDup (tags c) /\ NoDup (tags (handleAddTag c)) /\ handleAddTag c = c.
Proof.
  intros c.
  assert (Hd : NoDup (tags c)).
  { apply (bool_decide_unpack _). vm_compute. exact I. }
  assert (Hin : trim (tagInput c) ∈ tags c).
  { apply (bool_decide_unpack _). vm_compute. exact I. }
  split; [exact Hd|]. split.
  - exact (proj1 (add_tag_keeps_tags_distinct c) Hd).
  - exact (proj2 (proj2 (add_tag_keeps_tags_distinct c)) (or_intror Hin)).
Defined.

(** X16: [handleRemoveTag] removes every occurrence of the tag and keeps the
    other tags in their order; removing a tag that [handleAddTag] has just
    added gives back the tags as they were. *)
Theorem remove_tag_undoes_add_tag (c : Creator) (t : JsString) :
  (t ∉ tags (handleRemoveTag t c))
  /\ (forall x, x ∈ tags (handleRemoveTag t c) <-> x ∈ tags c /\ x <> t)
  /\ (t ∉ tags c -> tags (handleRemoveTag t c) = tags c)
  /\ (forallb is_white_space (tagInput c) = false ->
      trim (tagInput c) ∉ tags c ->
      tags (handleRemoveTag (trim (tagInput c)) (handleAddTag c)) = tags c).
Proof.
  unfold handleRemoveTag. cbn. split; [|split; [|split]].
  - intros H. apply list_elem_of_filter in H as [H _]. auto.
  - intros x. rewrite list_elem_of_filter. tauto.
  - apply filter_absent.
  - intros Hw Hn. unfold handleAddTag.
    rewrite truthy_trim, Hw. cbn.
    destruct (includes (trim (tagInput c)) (tags c)) eqn:Hi.
    { apply includes_spec in Hi. contradiction. }
    cbn. rewrite filter_app, filter_absent by exact Hn.
    rewrite filter_cons. destruct (decide (trim (tagInput c) <> trim (tagInput c)));
      [contradiction|]. rewrite filter_nil. apply app_nil_r.
Qed.

Lemma remove_tag_undoes_add_tag_example :
  let c := setTagInput (lit " Goth rock ") initial in
  forallb is_white_space (tagInput c) = false
  /\ tags (handleAddTag c) = [lit "Music"; lit "Review"; lit "Goth rock"]
  /\ tags (handleRemoveTag (lit "Goth rock") (handleAddTag c)) = tags c.
Proof.
  intros c.
  assert (Hn : trim (tagInput c) ∉ tags c).
  { intros H. apply (bool_decide_pack _) in H. vm_compute in H. exact H. }
  split; [reflexivity|]. split; [reflexivity|].
  exact (proj2 (proj2 (proj2 (remove_tag_undoes_add_tag c (lit "Goth rock")))) eq_refl Hn).
Defined.

(** X17: [handlePublish] with [App.handlePostCreated]. Without a non-empty
    title and a non-empty content nothing happens (and the publish button is
    disabled). Otherwise the new post is put in front of the posts, the form
    goes back to its defaults, the stored draft is removed, and the post is
    shown with the video when there is one, else with the cover image, else
    with no media at all. *)
Theorem publish_puts_the_post_first (now today : JsString) (c : Creator)
    (item : option Item) (posts : list BlogPost) :
  let r := handlePublish now today App.handlePostCreated c item posts in
  ((present (d_title (draft c)) && present (d_content (draft c))) = false ->
   r = (c, item, posts)
   /\ Button.r_disabled (Button.render (publishButton c)) = true)
  /\ ((present (d_title (draft c)) && present (d_content (draft c))) = true ->
      exists post,
        r = (mkCreator [] (analyzing c) emptyDraft Goth None None defaultTags
               (tagInput c) None (optimizingSeo c), None, post :: posts)
        /\ d_title (draft c) = Some (title post)
        /\ d_content (draft c) = Some (content post)
        /\ Blog.tags post = tags c
        /\ Blog.genre post = genre c
        /\ App.media post =
             (if present (videoUrl c) then option_map App.Video (videoUrl c)
              else if present (coverImage c) then option_map App.Img (coverImage c)
              else None)
        /\ Button.r_disabled (Button.render (publishButton c)) = false).
Proof.
  intros r. subst r. unfold handlePublish, publishButton.
  destruct (d_title (draft c)) as [t|] eqn:Ht, (d_content (draft c)) as [b|] eqn:Hb;
    cbn [present]; split; intros H.
  - rewrite H. split; [reflexivity|]. cbn.
    destruct (truthy t), (truthy b); try discriminate H; reflexivity.
  - rewrite H. eexists. split; [reflexivity|].
    apply andb_true_iff in H as [H1 H2]. cbn. rewrite H1, H2.
    repeat split.
    unfold App.media, newPost, orElse. cbn.
    destruct (videoUrl c) as [[|v vs]|], (coverImage c) as [[|i im]|]; reflexivity.
  - split; [reflexivity|]. cbn. rewrite orb_true_r. reflexivity.
  - rewrite andb_false_r in H. discriminate H.
  - split; reflexivity.
  - discriminate H.
  - split; reflexivity.
  - discriminate H.
Qed.

Lemma publish_puts_the_post_first_example :
  let c := mkCreator (lit "https://youtu.be/x") false
             (mkDraft (Some (lit "T")) (Some (lit "C")) None None None)
             Darkwave (Some (lit "data:image/png;base64,AAAA")) None
             [lit "Music"] [] None false in
  (present (d_title (draft c)) && present (d_content (draft c))) = true
  /\ exists post,
       handlePublish (lit "1") (lit "1/1/2025") App.handlePostCreated c (Some Garbled) [] =
         (mkCreator [] false emptyDraft Goth None None defaultTags [] None false,
          None, [post])
       /\ App.media post = Some (App.Img (lit "data:image/png;base64,AAAA")).
Proof.
  intros c. split; [reflexivity|].
  destruct (proj2 (publish_puts_the_post_first (lit "1") (lit "1/1/2025") c (Some Garbled) [])
              eq_refl) as [post (E & _ & _ & _ & _ & M & _)].
  exists post. split; [exact E | exact M].
Defined.

(** X18: the visible posts after a post is created: under the selection
    'All' or the genre of the new post it is first and the rest is what was
    visible before; under any other genre the visible posts do not change.
    Every visible post has the selected genre. *)
Theorem new_post_is_first_in_its_genre (post : BlogPost) (posts : list BlogPost)
    (selected : option Genre) :
  App.filteredPosts selected (App.handlePostCreated post posts) =
    (if match selected with
        | None => true
        | Some g => genre_eqb (Blog.genre post) g
        end
     then post :: App.filteredPosts selected posts
     else App.filteredPosts selected posts)
  /\ (forall g p, selected = Some g -> In p (App.filteredPosts selected posts) ->
                  Blog.genre p = g /\ In p posts).
Proof.
  split.
  - destruct selected as [g|]; cbn; [|reflexivity].
    destruct (genre_eqb (Blog.genre post) g); reflexivity.
  - intros g p -> H. cbn in H. apply filter_In in H as [Hin Hg]. split; [|exact Hin].
    destruct (Blog.genre p), g; try discriminate Hg; reflexivity.
Qed.

Lemma new_post_is_first_in_its_genre_example :
  let p := mkPost (lit "1") (lit "T") (lit "C") None EBM None None (Some IMAGE) [] (lit "d") None in
  App.filteredPosts (Some EBM) (App.handlePostCreated p []) = [p]
  /\ Blog.genre p = EBM.
Proof.
  intros p. split; [reflexivity|].
  exact (proj1 (proj2 (new_post_is_first_in_its_genre p [p] (Some EBM)) EBM p eq_refl
           (or_introl eq_refl))).
Defined.

(** X19: saving and loading the draft. When the storage takes the whole
    item, a freshly mounted creator that loads it has the url, draft, genre
    and tags that were saved and a non-empty cover image if one was saved;
    the video is not restored. When only the item without the image fits, the
    same holds except that no cover image comes back. When neither fits, the
    stored item and [lastSaved] stay as they were. *)
Theorem draft_survives_a_reload (fits : Saved -> bool) (now : N) (c : Creator)
    (item : option Item) :
  let saved := saveDraft fits now c item in
  let c' := loadDraft (snd saved) initial in
  (fits (dataToSave c) = true ->
   url c' = url c /\ draft c' = draft c /\ genre c' = genre c /\ tags c' = tags c
   /\ coverImage c' = (if present (coverImage c) then coverImage c else None)
   /\ videoUrl c' = None
   /\ lastSaved (fst saved) = Some now)
  /\ (fits (dataToSave c) = false -> fits (withoutImage (dataToSave c)) = true ->
      url c' = url c /\ draft c' = draft c /\ genre c' = genre c /\ tags c' = tags c
      /\ coverImage c' = None
      /\ lastSaved (fst saved) = Some now)
  /\ (fits (dataToSave c) = false -> fits (withoutImage (dataToSave c)) = false ->
      saved = (c, item)).
Proof.
  intros saved c'. subst saved c'. unfold saveDraft.
  split; [|split].
  - intros ->. cbn. destruct (url c) as [|u us]; cbn;
      destruct (coverImage c) as [[|i im]|]; repeat split; reflexivity.
  - intros -> ->. cbn. destruct (url c) as [|u us]; repeat split; reflexivity.
  - intros -> ->. reflexivity.
Qed.

Lemma draft_survives_a_reload_example :
  let c := mkCreator (lit "https://youtu.be/x") false
             (mkDraft (Some (lit "T")) None None None None)
             Metal (Some (lit "data:image/png;base64,AAAA")) (Some (lit "blob:1"))
             [lit "Music"] [] None false in
  let fits := fun s : Saved => match s_coverImage s with None => true | Some _ => false end in
  let c' := loadDraft (snd (saveDraft fits 7 c None)) initial in
  fits (dataToSave c) = false
  /\ fits (withoutImage (dataToSave c)) = true
  /\ url c' = url c /\ coverImage c' = None.
Proof.
  intros c fits c'. split; [reflexivity|]. split; [reflexivity|].
  destruct (proj1 (proj2 (draft_survives_a_reload fits 7 c None)) eq_refl eq_refl)
    as (Hu & _ & _ & _ & Hc & _).
  split; [exact Hu | exact Hc].
Defined.

(** * Reading the answers of the text model *)

Import GeminiText PostCreatorAi.

Section Markers.

Lemma after_literal_refl (pat s : JsString) : after_literal pat (pat ++ s) = Some s.
Proof.
  induction pat as [|p pat IH]; [reflexivity|].
  cbn. rewrite N.eqb_refl. exact IH.
Qed.

Lemma after_literal_app (pat s r : JsString) :
  after_literal pat s = Some r -> exists m, s = m ++ r /\ length m = length pat.
Proof.
  revert s. induction pat as [|p pat IH]; intros s H.
  - injection H as <-. exists []. split; reflexivity.
  - destruct s as [|c s]; [discriminate H|]. cbn in H.
    destruct (N.eqb (canonicalize p) (canonicalize c)); [|discriminate H].
    destruct (IH s H) as [m [-> Hm]]. exists (c :: m). cbn. split; congruence.
Qed.

(** A pattern without line feed cannot match across one. *)
Lemma after_literal_line (pat x y r : JsString) :
  ~ In 10%N pat ->
  after_literal pat (x ++ 10%N :: y) = Some r ->
  pat = [] \/ exists r', after_literal pat x = Some r'.
Proof.
  revert x. induction pat as [|p pat IH]; intros x Hp H; [left; reflexivity|].
  right. destruct x as [|c x].
  - cbn in H. destruct (N.eqb_spec (canonicalize p) 10%N) as [E|_]; [|discriminate H].
    exfalso. apply Hp. left. unfold canonicalize in E.
    destruct ((97 <=? p)%N && (p <=? 122)%N) eqn:B; [|exact E].
    apply andb_true_iff in B as [B1 B2].
    apply N.leb_le in B1. apply N.leb_le in B2. lia.
  - cbn in H |- *.
    destruct (N.eqb (canonicalize p) (canonicalize c)); [|discriminate H].
    destruct (IH x (fun Hin => Hp (or_intror Hin)) H) as [->|[r' Hr']].
    + exists x. reflexivity.
    + exists r'. exact Hr'.
Qed.

Lemma absent_cons (pat : JsString) (c : N) (s : JsString) :
  absent pat (c :: s) <-> after_literal pat (c :: s) = None /\ absent pat s.
Proof.
  split.
  - intros H. split; [exact (H 0%nat)|]. intros i. exact (H (S i)).
  - intros [H0 H] [|i]; [exact H0 | exact (H i)].
Qed.

Lemma match_marker_none (pat s : JsString) :
  match_marker pat s = None <-> absent pat s.
Proof.
  induction s as [|c s IH].
  - cbn. destruct (after_literal pat []) eqn:E.
    + split; [discriminate|]. intros H. specialize (H 0%nat). cbn in H. congruence.
    + split; [|reflexivity]. intros _ i. rewrite drop_nil. exact E.
  - rewrite absent_cons. cbn [match_marker].
    destruct (after_literal pat (c :: s)) eqn:E.
    + split; [discriminate|]. intros [H _]. discriminate H.
    + rewrite IH. tauto.
Qed.

Lemma absent_markers (pat s : JsString) :
  absent pat s -> before_marker pat s = s /\ after_marker pat s = None.
Proof.
  induction s as [|c s IH]; intros H.
  - specialize (H 0%nat). cbn in H. cbn. rewrite H. split; reflexivity.
  - apply absent_cons in H as [H0 H]. cbn [before_marker after_marker]. rewrite H0.
    destruct (IH H) as [-> ->]. split; reflexivity.
Qed.

(** The leftmost match is the one after a prefix in which [pat] matches at
    no position. *)
Lemma leftmost (pat a s r : JsString) :
  (forall i, (i < length a)%nat -> after_literal pat (drop i (a ++ s)) = None) ->
  after_literal pat s = Some r ->
  match_marker pat (a ++ s) = Some (line (trimStart r))
  /\ before_marker pat (a ++ s) = a
  /\ after_marker pat (a ++ s) = Some (trimStart r).
Proof.
  intros Ha Hs. induction a as [|c a IH].
  - destruct s as [|c s]; cbn [app match_marker before_marker after_marker];
      rewrite Hs; repeat split.
  - cbn [app match_marker before_marker after_marker].
    pose proof (Ha 0%nat ltac:(cbn; lia)) as H0. cbn in H0. rewrite H0.
    destruct IH as (-> & -> & ->); [|repeat split].
    intros i Hi. apply (Ha (S i)). cbn. lia.
Qed.

Lemma absent_drop (pat s : JsString) (n : nat) : absent pat s -> absent pat (drop n s).
Proof. intros H i. rewrite drop_drop. apply H. Qed.

Lemma absent_line_feed (pat x y : JsString) (i : nat) :
  pat <> [] -> ~ In 10%N pat -> absent pat x ->
  (i <= length x)%nat ->
  after_literal pat (drop i (x ++ 10%N :: y)) = None.
Proof.
  intros Hne Hp Hx Hi.
  destruct (after_literal pat (drop i (x ++ 10%N :: y))) as [r|] eqn:E; [|reflexivity].
  exfalso. rewrite drop_app_le in E by exact Hi.
  destruct (after_literal_line pat (drop i x) y r Hp E) as [->|[r' Hr']]; [congruence|].
  rewrite (Hx i) in Hr'. discriminate Hr'.
Qed.

Lemma trimStart_idem (s : JsString) : trimStart (trimStart s) = trimStart s.
Proof.
  induction s as [|c s IH]; [reflexivity|].
  cbn. destruct (is_white_space c) eqn:E; [exact IH|]. cbn. rewrite E. reflexivity.
Qed.

Lemma trim_trimStart (s : JsString) : trim (trimStart s) = trim s.
Proof. unfold trim. rewrite trimStart_idem. reflexivity. Qed.

Lemma trimStart_stops (s : JsString) (c : N) :
  is_white_space c = false -> trimStart (c :: s) = c :: s.
Proof. intros H. cbn. rewrite H. reflexivity. Qed.

Lemma line_stops (l rest : JsString) :
  forallb (fun c => negb (is_line_terminator c)) l = true ->
  line (l ++ 10%N :: rest) = l.
Proof.
  induction l as [|c l IH]; intros H; [reflexivity|].
  cbn in H. apply andb_true_iff in H as [Hc H]. apply negb_true_iff in Hc.
  cbn. rewrite Hc, IH by exact H. reflexivity.
Qed.

End Markers.

(** Evaluates the literals of the goal to their code units. *)
Ltac units :=
  repeat match goal with
         | |- context [lit ?s] =>
             let x := eval vm_compute in (lit s) in change (lit s) with x
         end.

Section Format.

Lemma trimStart_length (s : JsString) : (length (trimStart s) <= length s)%nat.
Proof.
  induction s as [|c s IH]; [reflexivity|].
  cbn. destruct (is_white_space c); cbn; lia.
Qed.

Lemma clean_head (s : JsString) :
  clean s -> exists c s', s = c :: s' /\ is_white_space c = false.
Proof.
  intros (Hne & Ht & _). destruct s as [|c s']; [contradiction|].
  exists c, s'. split; [reflexivity|].
  destruct (is_white_space c) eqn:E; [|reflexivity]. exfalso.
  assert (H : (length (trim (c :: s')) <= length s')%nat).
  { unfold trim, trimEnd. rewrite length_rev.
    etransitivity; [apply trimStart_length|]. rewrite length_rev.
    cbn. rewrite E. apply trimStart_length. }
  rewrite Ht in H. cbn in H. lia.
Qed.

Lemma capture_line (ws l rest : JsString) :
  forallb is_white_space ws = true -> clean l ->
  line (trimStart (ws ++ l ++ 10%N :: rest)) = l.
Proof.
  intros Hws Hl. destruct (clean_head l Hl) as (c & l' & E & Hc).
  destruct Hl as (_ & _ & Hline).
  induction ws as [|w ws IH].
  - cbn [app]. rewrite E at 1. cbn [app]. rewrite trimStart_stops by exact Hc.
    change (c :: l' ++ 10%N :: rest) with ((c :: l') ++ 10%N :: rest).
    rewrite <- E. apply line_stops, Hline.
  - cbn in Hws. apply andb_true_iff in Hws as [Hw Hws].
    cbn [app trimStart]. rewrite Hw. apply IH, Hws.
Qed.

Lemma match_here (pat s r : JsString) :
  after_literal pat s = Some r -> match_marker pat s = Some (line (trimStart r)).
Proof. intros H. destruct s; cbn; rewrite H; reflexivity. Qed.

Lemma absent_across_line_feed (pat x y : JsString) :
  pat <> [] -> ~ In 10%N pat -> absent pat x -> absent pat y ->
  absent pat (x ++ 10%N :: y).
Proof.
  intros Hne Hp Hx Hy i. destruct (le_lt_dec i (length x)) as [Hi|Hi].
  - apply absent_line_feed; assumption.
  - rewrite drop_app_ge by lia.
    replace (i - length x)%nat with (S (i - length x - 1)) by lia.
    cbn. apply Hy.
Qed.

Lemma trimStart_drop (s : JsString) : exists n, trimStart s = drop n s.
Proof.
  induction s as [|c s [n IH]]; [exists 0%nat; reflexivity|].
  cbn. destruct (is_white_space c); [exists (S n); exact IH | exists 0%nat; reflexivity].
Qed.

(** [pat] is absent from a literal prefix followed by [t]: every position of
    the prefix is refuted by evaluation. *)
Ltac absent_prefix Ht :=
  units; cbn [app]; repeat (apply absent_cons; split; [reflexivity|]); exact Ht.

Lemma marker_facts :
  TITLE <> [] /\ DESCRIPTION <> [] /\ CONTENT <> []
  /\ ~ In 10%N DESCRIPTION /\ ~ In 10%N CONTENT.
Proof. vm_compute. repeat split; intuition discriminate. Qed.

Lemma parse_answer (t d c : JsString) :
  clean t -> clean d ->
  absent DESCRIPTION t -> absent CONTENT t -> absent CONTENT d -> absent CONTENT c ->
  match_marker TITLE (answer t d c) = Some t
  /\ match_marker DESCRIPTION (answer t d c) = Some d
  /\ split_marker CONTENT (answer t d c) =
       [(lit "TITLE: " ++ t) ++ 10%N :: (lit "DESCRIPTION: " ++ d) ++ [10%N]; trimStart c].
Proof.
  intros Ht Hd Hdt Hct Hcd Hcc.
  destruct marker_facts as (_ & Hd0 & Hc0 & Hd10 & Hc10).
  assert (Hdt' : absent DESCRIPTION (lit "TITLE: " ++ t)).
  { unfold DESCRIPTION. absent_prefix Hdt. }
  assert (Hct' : absent CONTENT (lit "TITLE: " ++ t)).
  { unfold CONTENT. absent_prefix Hct. }
  assert (Hcd' : absent CONTENT (lit "DESCRIPTION: " ++ d)).
  { unfold CONTENT. absent_prefix Hcd. }
  split; [|split].
  - unfold answer.
    rewrite (match_here TITLE _ (lit " " ++ t ++ 10%N :: (lit "DESCRIPTION: " ++ d)
                                   ++ 10%N :: lit "CONTENT: " ++ c)).
    + rewrite (capture_line (lit " ") t) by (assumption || reflexivity). reflexivity.
    + rewrite <- app_assoc.
      change (lit "TITLE: " ++ t ++ ?x) with (TITLE ++ lit " " ++ t ++ x).
      apply after_literal_refl.
  - unfold answer.
    change (10%N :: (lit "DESCRIPTION: " ++ d) ++ ?x)
      with ([10%N] ++ (lit "DESCRIPTION: " ++ d) ++ x).
    rewrite app_assoc.
    destruct (leftmost DESCRIPTION ((lit "TITLE: " ++ t) ++ [10%N])
                ((lit "DESCRIPTION: " ++ d) ++ 10%N :: lit "CONTENT: " ++ c)
                (lit " " ++ d ++ 10%N :: lit "CONTENT: " ++ c)) as (-> & _ & _).
    + intros i Hi. rewrite <- app_assoc. cbn [app].
      apply absent_line_feed; try assumption.
      rewrite length_app in Hi. change (length [10%N]) with 1%nat in Hi. lia.
    + rewrite <- app_assoc.
      change (lit "DESCRIPTION: " ++ d ++ ?x) with (DESCRIPTION ++ lit " " ++ d ++ x).
      apply after_literal_refl.
    + rewrite (capture_line (lit " ") d) by (assumption || reflexivity). reflexivity.
  - assert (Habs : absent CONTENT ((lit "TITLE: " ++ t) ++ 10%N :: lit "DESCRIPTION: " ++ d)).
    { apply absent_across_line_feed; assumption. }
    assert (E : answer t d c =
                (((lit "TITLE: " ++ t) ++ 10%N :: lit "DESCRIPTION: " ++ d) ++ [10%N])
                  ++ CONTENT ++ lit " " ++ c).
    { unfold answer. rewrite <- !app_assoc. cbn [app]. rewrite <- !app_assoc. reflexivity. }
    destruct (leftmost CONTENT
                (((lit "TITLE: " ++ t) ++ 10%N :: lit "DESCRIPTION: " ++ d) ++ [10%N])
                (CONTENT ++ lit " " ++ c) (lit " " ++ c)) as (_ & Hb & Ha).
    + intros i Hi. rewrite <- app_assoc. cbn [app].
      apply absent_line_feed; try assumption.
      rewrite length_app in Hi. change (length [10%N]) with 1%nat in Hi. lia.
    + apply after_literal_refl.
    + unfold split_marker.
      assert (Hlen : exists n, length (answer t d c) = S (S n)).
      { unfold answer. units. cbn [app length]. eauto. }
      destruct Hlen as [n ->]. cbn [split_rounds].
      rewrite E, Ha, Hb.
      assert (Hts : trimStart (lit " " ++ c) = trimStart c) by reflexivity.
      rewrite Hts.
      destruct (trimStart_drop c) as [k Hk].
      assert (Hnone : after_marker CONTENT (trimStart c) = None).
      { rewrite Hk. apply absent_markers, absent_drop, Hcc. }
      rewrite Hnone. rewrite <- app_assoc. cbn [app]. rewrite <- app_assoc. reflexivity.
Qed.

End Format.

Lemma parseAnalysis_answer (t d c : JsString) :
  clean t -> clean d ->
  absent DESCRIPTION t -> absent CONTENT t -> absent CONTENT d -> absent CONTENT c ->
  parseAnalysis (Some (answer t d c)) = mkParsed t d (trim c).
Proof.
  intros Ht Hd Hdt Hct Hcd Hcc.
  destruct (parse_answer t d c Ht Hd Hdt Hct Hcd Hcc) as (H1 & H2 & H3).
  unfold parseAnalysis.
  assert (Hp : Blog.present (Some (answer t d c)) = true).
  { unfold answer. units. reflexivity. }
  cbv zeta. rewrite Hp.
  change (default [] (Some (answer t d c))) with (answer t d c).
  rewrite H1, H2, H3.
  destruct Ht as (_ & -> & _). destruct Hd as (_ & -> & _).
  rewrite trim_trimStart.
  rewrite bool_decide_eq_true_2 by eauto. rewrite andb_false_r. reflexivity.
Qed.

(** X20: an answer in the format that the prompt asks for is read back.
    When the title and the description are non-empty single lines without
    white space around them, and the markers "DESCRIPTION:" and "CONTENT:"
    occur in neither of them nor "CONTENT:" in the content, [analyzeLink]
    returns that title, that description and the trimmed content. *)
Theorem formatted_answer_is_read_back (t d c : JsString) :
  clean t -> clean d ->
  absent DESCRIPTION t -> absent CONTENT t -> absent CONTENT d -> absent CONTENT c ->
  parseAnalysis (Some (answer t d c)) = mkParsed t d (trim c).
Proof. exact (parseAnalysis_answer t d c). Qed.

Lemma formatted_answer_is_read_back_example :
  let t := lit "Bela Lugosi's Dead: nine minutes of dread" in
  let d := lit "Why the first goth single still matters." in
  let c := lit " Dub bass, scraping guitar.
Still essential. " in
  parseAnalysis (Some (answer t d c)) =
    mkParsed t d (lit "Dub bass, scraping guitar.
Still essential.").
Proof.
  intros t d c.
  assert (Ht : clean t).
  { split; [discriminate|]. split; vm_compute; reflexivity. }
  assert (Hd : clean d).
  { split; [discriminate|]. split; vm_compute; reflexivity. }
  assert (Hdt : absent DESCRIPTION t) by (apply match_marker_none; vm_compute; reflexivity).
  assert (Hct : absent CONTENT t) by (apply match_marker_none; vm_compute; reflexivity).
  assert (Hcd : absent CONTENT d) by (apply match_marker_none; vm_compute; reflexivity).
  assert (Hcc : absent CONTENT c) by (apply match_marker_none; vm_compute; reflexivity).
  exact (formatted_answer_is_read_back t d c Ht Hd Hdt Hct Hcd Hcc).
Defined.

Section Trimmed.

Lemma trimStart_snoc (l : JsString) (c : N) :
  is_white_space c = false -> trimStart (l ++ [c]) = trimStart l ++ [c].
Proof.
  intros Hc. induction l as [|a l IH]; cbn; [rewrite Hc; reflexivity|].
  destruct (is_white_space a); [exact IH | reflexivity].
Qed.

Lemma trimStart_fixed (s : JsString) :
  trimStart s = s -> s = [] \/ exists c s', s = c :: s' /\ is_white_space c = false.
Proof.
  destruct s as [|c s']; [left; reflexivity|]. intros H. right.
  exists c, s'. split; [reflexivity|].
  destruct (is_white_space c) eqn:E; [|reflexivity]. exfalso.
  cbn in H. rewrite E in H. pose proof (trimStart_length s') as L.
  rewrite H in L. cbn in L. lia.
Qed.

Lemma trimStart_trimEnd (y : JsString) :
  trimStart y = y -> trimStart (trimEnd y) = trimEnd y.
Proof.
  intros H. destruct (trimStart_fixed y H) as [->|(c & y' & -> & Hc)]; [reflexivity|].
  unfold trimEnd. cbn [rev]. rewrite trimStart_snoc by exact Hc.
  rewrite rev_app_distr. cbn. rewrite Hc. reflexivity.
Qed.

Lemma trimEnd_idem (y : JsString) : trimEnd (trimEnd y) = trimEnd y.
Proof. unfold trimEnd. rewrite rev_involutive, trimStart_idem. reflexivity. Qed.

Lemma trim_idem (s : JsString) : trim (trim s) = trim s.
Proof.
  unfold trim. rewrite trimStart_trimEnd by apply trimStart_idem. apply trimEnd_idem.
Qed.

Lemma forallb_trimStart (f : N -> bool) (s : JsString) :
  forallb f s = true -> forallb f (trimStart s) = true.
Proof.
  intros H. destruct (trimStart_suffix s) as [ws [E _]]. rewrite E in H.
  rewrite forallb_app in H. apply andb_true_iff in H as [_ H]. exact H.
Qed.

Lemma single_line_trim (s : JsString) : single_line s -> single_line (trim s).
Proof.
  unfold single_line, trim, trimEnd. intros H.
  rewrite forallb_rev. apply forallb_trimStart. rewrite forallb_rev.
  apply forallb_trimStart, H.
Qed.

Lemma single_line_line (s : JsString) : single_line (line s).
Proof.
  unfold single_line. induction s as [|c s IH]; [reflexivity|].
  cbn. destruct (is_line_terminator c) eqn:E; [reflexivity|].
  cbn. rewrite E. exact IH.
Qed.

Lemma match_marker_line (pat s m : JsString) : match_marker pat s = Some m -> single_line m.
Proof.
  induction s as [|c s IH]; cbn; intros H.
  - destruct (after_literal pat []); [|discriminate H].
    injection H as <-. apply single_line_line.
  - destruct (after_literal pat (c :: s)); [|exact (IH H)].
    injection H as <-. apply single_line_line.
Qed.

End Trimmed.

(** X21: whatever the answer, the description and the content that
    [analyzeLink] returns have no white space around them and the description
    is a single line; so is the title, with no white space around it, whenever
    the answer holds a "TITLE:" marker. *)
Theorem parsed_fields_are_trimmed (responseText : option JsString) :
  let p := parseAnalysis responseText in
  let text := if Blog.present responseText then default [] responseText
              else lit "Could not analyze link." in
  trim (p_metaDescription p) = p_metaDescription p
  /\ single_line (p_metaDescription p)
  /\ trim (p_content p) = p_content p
  /\ (is_Some (match_marker TITLE text) ->
      trim (p_title p) = p_title p /\ single_line (p_title p)).
Proof.
  intros p text. subst p. unfold parseAnalysis. cbv zeta. fold text.
  assert (Hd : forall o : option JsString,
             (forall m, o = Some m -> single_line m) ->
             trim (match o with Some m => trim m | None => [] end)
               = match o with Some m => trim m | None => [] end
             /\ single_line (match o with Some m => trim m | None => [] end)).
  { intros [m|] H; [|split; reflexivity].
    split; [apply trim_idem | apply single_line_trim, H; reflexivity]. }
  destruct (Hd (match_marker DESCRIPTION text) (match_marker_line DESCRIPTION text)) as [D1 D2].
  assert (Hc : forall l : list JsString,
             trim (match l with _ :: piece :: _ => trim piece | _ => [] end)
               = match l with _ :: piece :: _ => trim piece | _ => [] end).
  { intros [|a [|b l]]; try reflexivity. apply trim_idem. }
  destruct (match_marker TITLE text) as [m|] eqn:Ht.
  - rewrite bool_decide_eq_true_2 by eauto. rewrite andb_false_r.
    cbn [p_title p_metaDescription p_content].
    split; [exact D1|]. split; [exact D2|]. split; [apply Hc|]. intros _. split.
    + apply trim_idem.
    + apply single_line_trim, (match_marker_line TITLE text m Ht).
  - rewrite bool_decide_eq_false_2 by (intros [x Hx]; discriminate Hx).
    rewrite andb_true_r.
    match goal with |- context [negb (truthy ?x)] => destruct (truthy x) end;
      cbn [p_title p_metaDescription p_content negb andb];
      (split; [exact D1|]); (split; [exact D2|]);
      (split; [first [apply Hc | apply trim_idem]|]);
      intros [x Hx]; discriminate Hx.
Qed.

Lemma parsed_fields_are_trimmed_example :
  let text := lit "Title:   Floodland 	
DESCRIPTION: big  " in
  is_Some (match_marker TITLE text)
  /\ p_title (parseAnalysis (Some text)) = lit "Floodland"
  /\ trim (p_title (parseAnalysis (Some text))) = p_title (parseAnalysis (Some text)).
Proof.
  intros text.
  assert (H : is_Some (match_marker TITLE text)) by (vm_compute; eauto).
  split; [exact H|]. split; [vm_compute; reflexivity|].
  exact (proj1 (proj2 (proj2 (proj2 (parsed_fields_are_trimmed (Some text)))) H)).
Defined.

Section Fallback.

Lemma remove_bold_head (c : N) (s : JsString) :
  N.eqb c 42 = false -> remove_bold (c :: s) = c :: remove_bold s.
Proof.
  intros H. destruct s as [|c' s]; [reflexivity|].
  cbn [remove_bold]. rewrite H. reflexivity.
Qed.

Lemma remove_bold_cons2 (c c' : N) (s : JsString) :
  remove_bold (c :: c' :: s) =
    if N.eqb c 42 && N.eqb c' 42 then remove_bold s else c :: remove_bold (c' :: s).
Proof. reflexivity. Qed.

Lemma bold_free_cons2 (c c' : N) (s : JsString) :
  bold_free (c :: c' :: s) = negb (N.eqb c 42 && N.eqb c' 42) && bold_free (c' :: s).
Proof. reflexivity. Qed.

Lemma bold_free_remove_bold (s : JsString) : bold_free (remove_bold s) = true.
Proof.
  assert (H : forall n s, (length s <= n)%nat -> bold_free (remove_bold s) = true).
  { clear s. induction n as [|n IH]; intros s Hn.
    - destruct s; [reflexivity | cbn in Hn; lia].
    - destruct s as [|c [|c' s]]; [reflexivity | reflexivity |].
      rewrite remove_bold_cons2.
      destruct (N.eqb c 42 && N.eqb c' 42) eqn:E.
      + apply IH. cbn in Hn. lia.
      + assert (Hrec : bold_free (remove_bold (c' :: s)) = true).
        { apply IH. cbn in Hn |- *. lia. }
        destruct (remove_bold (c' :: s)) as [|x r] eqn:Er; [reflexivity|].
        rewrite bold_free_cons2, Hrec, andb_true_r.
        apply negb_true_iff.
        destruct (N.eqb c 42) eqn:Ec; [|reflexivity]. cbn in E. cbn.
        rewrite remove_bold_head in Er by exact E. injection Er as <- _. exact E. }
  apply (H (length s)). reflexivity.
Qed.

End Fallback.

(** X22: an answer without the markers is read as markdown. When the
    answer is not empty and holds neither "TITLE:" nor "CONTENT:", the title
    is the first line without its leading number signs and without any pair
    of asterisks, and the content is the rest of the text, trimmed; the title
    then holds no two asterisks in a row. A missing answer gives the title
    "Could not analyze link." with an empty description and content, and so
    does an empty one. *)
Theorem unformatted_answer_is_read_as_markdown (text : JsString) :
  (text <> [] -> absent TITLE text -> absent CONTENT text ->
   parseAnalysis (Some text) =
     mkParsed (remove_bold (strip_heading (hd [] (split 10 text))))
       (match match_marker DESCRIPTION text with Some m => trim m | None => [] end)
       (trim (join 10 (tl (split 10 text))))
   /\ bold_free (p_title (parseAnalysis (Some text))) = true)
  /\ parseAnalysis None = mkParsed (lit "Could not analyze link.") [] []
  /\ parseAnalysis (Some []) = parseAnalysis None.
Proof.
  split; [|split; vm_compute; reflexivity].
  intros Hne Ht Hc.
  assert (E : parseAnalysis (Some text) =
     mkParsed (remove_bold (strip_heading (hd [] (split 10 text))))
       (match match_marker DESCRIPTION text with Some m => trim m | None => [] end)
       (trim (join 10 (tl (split 10 text))))).
  { unfold parseAnalysis. cbv zeta.
    assert (Hp : Blog.present (Some text) = true) by (destruct text; [contradiction | reflexivity]).
    rewrite Hp. change (default [] (Some text)) with text.
    apply match_marker_none in Ht. rewrite Ht.
    assert (Hs : split_marker CONTENT text = [text]).
    { unfold split_marker. destruct (absent_markers CONTENT text Hc) as [_ Ha].
      destruct (length text); cbn [split_rounds]; [reflexivity|]. rewrite Ha. reflexivity. }
    rewrite Hs. cbn [truthy negb andb].
    rewrite bool_decide_eq_false_2 by (intros [x Hx]; discriminate Hx).
    reflexivity. }
  split; [exact E|]. rewrite E. cbn [p_title]. apply bold_free_remove_bold.
Qed.

Lemma unformatted_answer_is_read_as_markdown_example :
  let text := lit "## **Floodland** revisited
A record of **rain**." in
  text <> [] /\ absent TITLE text /\ absent CONTENT text
  /\ parseAnalysis (Some text) =
       mkParsed (lit "Floodland revisited") [] (lit "A record of **rain**.").
Proof.
  intros text.
  assert (Hne : text <> []) by discriminate.
  assert (Ht : absent TITLE text) by (apply match_marker_none; vm_compute; reflexivity).
  assert (Hc : absent CONTENT text) by (apply match_marker_none; vm_compute; reflexivity).
  split; [exact Hne|]. split; [exact Ht|]. split; [exact Hc|].
  rewrite (proj1 (proj1 (unformatted_answer_is_read_as_markdown text) Hne Ht Hc)).
  vm_compute. reflexivity.
Defined.

(** X23: "AI Optimize" with an answer that holds neither "TITLE:" nor
    "DESCRIPTION:" keeps the title that was sent (the draft title, or "New
    Post" when the draft has none) and replaces the meta description by the
    empty string; the content, the link and the sources stay. Without content
    nothing is sent, and a rejected call changes nothing in the draft. *)
Theorem unformatted_optimization_wipes_the_description (c : PostCreator.Creator)
    (text : option JsString) :
  (Blog.present (Blog.d_content (PostCreator.draft c)) = false ->
   handleOptimizeSeo_begin c = (c, None))
  /\ (Blog.present (Blog.d_content (PostCreator.draft c)) = true ->
      exists sent body c1,
        handleOptimizeSeo_begin c = (c1, Some (sent, body))
        /\ PostCreator.optimizingSeo c1 = true
        /\ PostCreator.draft c1 = PostCreator.draft c
        /\ sent = (if Blog.present (Blog.d_title (PostCreator.draft c))
                   then default [] (Blog.d_title (PostCreator.draft c))
                   else lit "New Post")
        /\ PostCreator.draft (handleOptimizeSeo_resume sent None c1) = PostCreator.draft c
        /\ PostCreator.optimizingSeo (handleOptimizeSeo_resume sent (Some text) c1) = false
        /\ (absent TITLE (default [] text) -> absent DESCRIPTION (default [] text) ->
            PostCreator.draft (handleOptimizeSeo_resume sent (Some text) c1) =
              Blog.mkDraft (Some sent) (Blog.d_content (PostCreator.draft c)) (Some [])
                (Blog.d_youtubeUrl (PostCreator.draft c))
                (Blog.d_groundingSources (PostCreator.draft c)))).
Proof.
  unfold handleOptimizeSeo_begin. split; intros H; rewrite H; [reflexivity|].
  eexists _, _, _. split; [reflexivity|]. cbn.
  repeat split.
  intros Ht Hd. unfold parseOptimized. cbv zeta.
  assert (E : (if Blog.present text then default [] text else []) = default [] text).
  { destruct text as [[|x s]|]; reflexivity. }
  rewrite E. apply match_marker_none in Ht. apply match_marker_none in Hd.
  rewrite Ht, Hd. reflexivity.
Qed.

Lemma unformatted_optimization_wipes_the_description_example :
  let c := PostCreatorAi.setDraft
             (Blog.mkDraft (Some (lit "Floodland")) (Some (lit "A record of rain."))
                (Some (lit "An old description")) None None) PostCreator.initial in
  let text := Some (lit "Sure! Here is a better version.") in
  Blog.present (Blog.d_content (PostCreator.draft c)) = true
  /\ absent TITLE (default [] text) /\ absent DESCRIPTION (default [] text)
  /\ exists sent body c1,
       handleOptimizeSeo_begin c = (c1, Some (sent, body))
       /\ Blog.d_metaDescription
            (PostCreator.draft (handleOptimizeSeo_resume sent (Some text) c1)) = Some [].
Proof.
  intros c text.
  assert (Ht : absent TITLE (default [] text)) by (apply match_marker_none; vm_compute; reflexivity).
  assert (Hd : absent DESCRIPTION (default [] text))
    by (apply match_marker_none; vm_compute; reflexivity).
  split; [reflexivity|]. split; [exact Ht|]. split; [exact Hd|].
  destruct (proj2 (unformatted_optimization_wipes_the_description c text) eq_refl)
    as (sent & body & c1 & E & _ & _ & _ & _ & _ & H).
  exists sent, body, c1. split; [exact E|]. rewrite (H Ht Hd). reflexivity.
Defined.

(** * From the analysed link to the published post *)

Section Pipeline.

Import Js Blog PostCreator GeminiText PostCreatorAi.

Lemma truthy_nonempty (s : JsString) : s <> [] -> truthy s = true.
Proof. destruct s; [contradiction | reflexivity]. Qed.

Lemma sourcesOf_spec (chunks : option (list (option Source))) (s : Source) :
  s ∈ sourcesOf chunks <-> Some s ∈ default [] chunks.
Proof.
  unfold sourcesOf. rewrite list_elem_of_omap. split.
  - intros (x & Hx & E). subst x. exact Hx.
  - intros H. exists (Some s). split; [exact H | reflexivity].
Qed.

End Pipeline.

(** X24: from the analysed link to the post. When the model answers in the
    format asked for (title and description non-empty single lines without
    white space around them, the later markers absent from the earlier
    fields, a content that is not blank), "Publish" right after the analysis
    puts in front of the posts a post with that title, that description, the
    trimmed content, the analysed url as its YouTube url and, as sources, the
    [web] entries of the grounding chunks in their order, chunks without one
    left out; genre and tags are those of the form. No alert is shown. *)
Theorem analysed_link_is_published_with_its_sources
    (u t d body now today : Js.JsString)
    (chunks : option (list (option Blog.Source)))
    (c : PostCreator.Creator) (item : option PostCreator.Item) (posts : list Blog.BlogPost) :
  clean t -> clean d ->
  absent DESCRIPTION t -> absent CONTENT t -> absent CONTENT d -> absent CONTENT body ->
  Js.trim body <> [] ->
  let r := handleUrlAnalyze_resume u (Some (Some (answer t d body), chunks)) c in
  snd r = O
  /\ PostCreator.analyzing (fst r) = false
  /\ (forall s, s ∈ sourcesOf chunks <-> Some s ∈ default [] chunks)
  /\ exists c2,
       PostCreator.handlePublish now today App.handlePostCreated (fst r) item posts =
         (c2, None,
          Blog.mkPost now t (Js.trim body) (Some d) (PostCreator.genre c) (Some u)
            (Blog.mediaUrl (PostCreator.newPost now today t (Js.trim body) c))
            (Blog.mediaType (PostCreator.newPost now today t (Js.trim body) c))
            (PostCreator.tags c) today (Some (sourcesOf chunks)) :: posts)
       /\ PostCreator.draft c2 = Blog.emptyDraft.
Proof.
  intros Ht Hd Hdt Hct Hcd Hcc Hb r. subst r. unfold handleUrlAnalyze_resume.
  rewrite (parseAnalysis_answer t d body Ht Hd Hdt Hct Hcd Hcc).
  cbn [fst snd p_title p_content p_metaDescription].
  split; [reflexivity|]. split; [reflexivity|]. split; [apply sourcesOf_spec|].
  unfold PostCreator.handlePublish. cbn.
  rewrite (truthy_nonempty t) by apply Ht. rewrite (truthy_nonempty _ Hb). cbn.
  eexists. split; reflexivity.
Qed.

Lemma analysed_link_is_published_with_its_sources_example :
  let u := Js.lit "https://youtu.be/Yy9h2q_dr9k" in
  let t := Js.lit "Bela Lugosi's Dead" in
  let d := Js.lit "Nine minutes of dread." in
  let body := Js.lit " Dub bass, scraping guitar. " in
  let web := Blog.mkSource (Js.lit "https://example.org/bauhaus") (Js.lit "Bauhaus") in
  let chunks := Some [None; Some web; None] in
  exists c2,
    PostCreator.handlePublish (Js.lit "1700000000000") (Js.lit "1/2/2026") App.handlePostCreated
      (fst (handleUrlAnalyze_resume u (Some (Some (answer t d body), chunks))
              PostCreator.initial)) None [] =
      (c2, None,
       [Blog.mkPost (Js.lit "1700000000000") t (Js.lit "Dub bass, scraping guitar.") (Some d)
          Blog.Goth (Some u) None (Some Blog.IMAGE) PostCreator.defaultTags
          (Js.lit "1/2/2026") (Some [web])]).
Proof.
  intros u t d body web chunks.
  assert (Ht : clean t).
  { split; [discriminate|]. split; vm_compute; reflexivity. }
  assert (Hd : clean d).
  { split; [discriminate|]. split; vm_compute; reflexivity. }
  assert (Hdt : absent DESCRIPTION t) by (apply match_marker_none; vm_compute; reflexivity).
  assert (Hct : absent CONTENT t) by (apply match_marker_none; vm_compute; reflexivity).
  assert (Hcd : absent CONTENT d) by (apply match_marker_none; vm_compute; reflexivity).
  assert (Hcc : absent CONTENT body) by (apply match_marker_none; vm_compute; reflexivity).
  assert (Hb : Js.trim body <> []) by (vm_compute; discriminate).
  destruct (analysed_link_is_published_with_its_sources u t d body
              (Js.lit "1700000000000") (Js.lit "1/2/2026") chunks PostCreator.initial None []
              Ht Hd Hdt Hct Hcd Hcc Hb) as (_ & _ & _ & c2 & E & _).
  exists c2. rewrite E. vm_compute. reflexivity.
Defined.

(** X25: an answer without text is not reported. When the model's answer
    has no text (missing or empty), [handleUrlAnalyze] shows no alert: it
    overwrites the draft with the title "Could not analyze link.", an empty
    description and an empty content, so that the publish button is disabled
    and [handlePublish] does nothing. Only a rejected call shows the alert,
    once, and leaves the draft as it was. In both cases the analysing flag goes
    back to false. *)
Theorem answer_without_text_is_not_reported
    (u now today : Js.JsString) (responseText : option Js.JsString)
    (chunks : option (list (option Blog.Source)))
    (c : PostCreator.Creator) (item : option PostCreator.Item) (posts : list Blog.BlogPost) :
  (Blog.present responseText = false ->
   let r := handleUrlAnalyze_resume u (Some (responseText, chunks)) c in
   snd r = O
   /\ PostCreator.analyzing (fst r) = false
   /\ PostCreator.draft (fst r) =
        Blog.mkDraft (Some (Js.lit "Could not analyze link.")) (Some []) (Some [])
          (Some u) (Some (sourcesOf chunks))
   /\ Button.r_disabled (Button.render (PostCreator.publishButton (fst r))) = true
   /\ PostCreator.handlePublish now today App.handlePostCreated (fst r) item posts =
        (fst r, item, posts))
  /\ (let r := handleUrlAnalyze_resume u None c in
      snd r = 1%nat
      /\ PostCreator.analyzing (fst r) = false
      /\ PostCreator.draft (fst r) = PostCreator.draft c).
Proof.
  split; [|cbn; auto].
  intros Hp r. subst r. unfold handleUrlAnalyze_resume.
  assert (E : parseAnalysis responseText = parseAnalysis None).
  { destruct responseText as [[|x s]|]; [vm_compute; reflexivity | discriminate Hp | reflexivity]. }
  rewrite E.
  change (parseAnalysis None) with (mkParsed (Js.lit "Could not analyze link.") [] []).
  cbn [fst snd p_title p_content p_metaDescription].
  split; [reflexivity|]. split; [reflexivity|]. split; [reflexivity|].
  split; reflexivity.
Qed.

Lemma answer_without_text_is_not_reported_example :
  let c := PostCreatorAi.setDraft
             (Blog.mkDraft (Some (Js.lit "Floodland")) (Some (Js.lit "A record of rain."))
                None None None) PostCreator.initial in
  let r := handleUrlAnalyze_resume (Js.lit "https://youtu.be/x") (Some (Some [], None)) c in
  snd r = O
  /\ Blog.d_content (PostCreator.draft (fst r)) = Some []
  /\ Button.r_disabled (Button.render (PostCreator.publishButton (fst r))) = true.
Proof.
  intros c r.
  assert (Hp : Blog.present (Some []) = false) by reflexivity.
  destruct (proj1 (answer_without_text_is_not_reported (Js.lit "https://youtu.be/x") [] []
                     (Some []) None c None []) Hp) as (H1 & _ & H3 & H4 & _).
  split; [exact H1|]. split; [|exact H4].
  exact (f_equal Blog.d_content H3).
Defined.
